(** * MGNBot: bulk operation engine and status reconciliation

    A shallow embedding of the core of MGNBot (a desktop tool that
    bulk-manages AWS MGN source servers) together with the properties
    its specification states about it.

    Source files embedded here:
    - [src/models/server.py]     : the data model;
    - [src/utils/async_utils.py] : [RateLimiter] and the two concurrent
                                   executors;
    - [src/aws/mgn_client.py]    : parsing of raw records and the remote
                                   launch/terminate loops;
    - [src/ui/main_window.py]    : the bulk operation coordinator.

    Modelling conventions.
    - Python [int] is [Z]; Python [float] (progress percentage, clock
      readings of [time.time()]) is the exact rational [Q].
    - Python [str] is [string]; [str.lower] acts on ASCII letters.
    - An untyped record of the remote service is a [pyval]: the JSON
      fragment of Python values, a [dict] being an association list in
      insertion order with string keys.
    - A Python exception is a value of [exn]; a function that may raise
      returns a [result]. *)

From Stdlib Require Import ZArith QArith Lqa Lia Bool List String Ascii Sorted.
From stdpp Require Import base option list.
Import ListNotations.

Set Warnings "-register-all".

Local Open Scope string_scope.
Local Open Scope list_scope.

(* ===================================================================== *)
(** * Python values and exceptions *)
(* ===================================================================== *)

Module Py.

Inductive pyval : Type :=
| PNone
| PBool (b : bool)
| PInt (z : Z)
| PStr (s : string)
| PList (l : list pyval)
| PDict (d : list (string * pyval)).

Inductive exn : Type :=
| ValueError (msg : string)
| AttributeError
| TypeError
| KeyError
| IndexError
| ZeroDivisionError
| ClientError (code message text : string)
| Exception (msg : string).

Inductive result (A : Type) : Type :=
| Ok (a : A)
| Raise (e : exn).
Arguments Ok {A} a.
Arguments Raise {A} e.

Definition bind {A B} (m : result A) (k : A -> result B) : result B :=
  match m with
  | Ok a => k a
  | Raise e => Raise e
  end.

(** [bool(v)]: Python truthiness. *)
Definition truthy (v : pyval) : bool :=
  match v with
  | PNone => false
  | PBool b => b
  | PInt z => negb (z =? 0)%Z
  | PStr s => negb (String.eqb s "")
  | PList l => match l with [] => false | _ => true end
  | PDict d => match d with [] => false | _ => true end
  end.

(** [d.get(k)] on an association list: the first binding of [k]. *)
Fixpoint dict_get (d : list (string * pyval)) (k : string) : option pyval :=
  match d with
  | [] => None
  | (k', v) :: rest => if String.eqb k' k then Some v else dict_get rest k
  end.

(** [d.get(k, dflt)]. *)
Definition get_or (d : list (string * pyval)) (k : string) (dflt : pyval) : pyval :=
  match dict_get d k with
  | Some v => v
  | None => dflt
  end.

(** [d.get(k)] with Python's implicit default [None]. *)
Definition get (d : list (string * pyval)) (k : string) : pyval :=
  get_or d k PNone.

(** [k in d]. *)
Definition contains (d : list (string * pyval)) (k : string) : bool :=
  match dict_get d k with
  | Some _ => true
  | None => false
  end.

(** [v == s] for a string literal [s]: only a [str] is equal to a [str]. *)
Definition eq_str (v : pyval) (s : string) : bool :=
  match v with
  | PStr s' => String.eqb s' s
  | _ => false
  end.

Definition lower_ascii (c : ascii) : ascii :=
  let n := nat_of_ascii c in
  if (65 <=? n)%nat && (n <=? 90)%nat then ascii_of_nat (n + 32) else c.

Fixpoint lower (s : string) : string :=
  match s with
  | EmptyString => EmptyString
  | String c rest => String (lower_ascii c) (lower rest)
  end.

(** [v.lower()]: only [str] has the method. *)
Definition py_lower (v : pyval) : result string :=
  match v with
  | PStr s => Ok (lower s)
  | _ => Raise AttributeError
  end.

(** [s.startswith(p)]. *)
Fixpoint startswith (s p : string) : bool :=
  match p, s with
  | EmptyString, _ => true
  | String c p', String d s' => Ascii.eqb c d && startswith s' p'
  | String _ _, EmptyString => false
  end.

(** [s.replace("Z", "+00:00")]: every occurrence of the one-character
    pattern is replaced. *)
Fixpoint replace_Z (s : string) : string :=
  match s with
  | EmptyString => EmptyString
  | String c rest =>
      if Ascii.eqb c "Z"%char then "+00:00" ++ replace_Z rest
      else String c (replace_Z rest)
  end.

(** [s[:n]]. *)
Definition prefix (n : nat) (s : string) : string := substring 0 n s.

(** [s.split(' ')[0]]: the part of [s] before its first space. *)
Fixpoint split_space_head (s : string) : string :=
  match s with
  | EmptyString => EmptyString
  | String c rest =>
      if Ascii.eqb c " "%char then EmptyString
      else String c (split_space_head rest)
  end.

(** [v.get(k, dflt)] on an arbitrary value: only a [dict] has [get]. *)
Definition py_get (v : pyval) (k : string) (dflt : pyval) : result pyval :=
  match v with
  | PDict d => Ok (get_or d k dflt)
  | _ => Raise AttributeError
  end.

(** [v[k]] for a string key [k]. *)
Definition subscript_key (v : pyval) (k : string) : result pyval :=
  match v with
  | PDict d =>
      match dict_get d k with
      | Some x => Ok x
      | None => Raise KeyError
      end
  | _ => Raise TypeError
  end.

(** [v[0]]. *)
Definition subscript_0 (v : pyval) : result pyval :=
  match v with
  | PList (x :: _) => Ok x
  | PList [] => Raise IndexError
  | PStr (String c _) => Ok (PStr (String c EmptyString))
  | PStr EmptyString => Raise IndexError
  | PDict _ => Raise KeyError
  | _ => Raise TypeError
  end.

(** Equality of two hashable values used as dictionary keys
    ([True == 1] and [False == 0] in Python). *)
Definition as_number (v : pyval) : option Z :=
  match v with
  | PBool b => Some (if b then 1 else 0)%Z
  | PInt z => Some z
  | _ => None
  end.

Definition key_eqb (a b : pyval) : bool :=
  match a, b with
  | PNone, PNone => true
  | PStr s, PStr t => String.eqb s t
  | _, _ =>
      match as_number a, as_number b with
      | Some x, Some y => (x =? y)%Z
      | _, _ => false
      end
  end.

Definition hashable (v : pyval) : bool :=
  match v with
  | PList _ | PDict _ => false
  | _ => true
  end.

(** [d[k] = v] on a dictionary with arbitrary hashable keys: an existing
    key keeps its position, a new key goes last. *)
Fixpoint assoc_set (d : list (pyval * pyval)) (k v : pyval) : list (pyval * pyval) :=
  match d with
  | [] => [(k, v)]
  | (k', v') :: rest =>
      if key_eqb k' k then (k', v) :: rest else (k', v') :: assoc_set rest k v
  end.

Definition setitem (d : list (pyval * pyval)) (k v : pyval)
  : result (list (pyval * pyval)) :=
  if hashable k then Ok (assoc_set d k v) else Raise TypeError.

End Py.
Import Py.

Declare Scope py_scope.
Delimit Scope py_scope with py.
Notation "'do' x <- m ; k" := (Py.bind m (fun x => k))
  (at level 10, x name, m at level 100, k at level 200) : py_scope.
Local Open Scope py_scope.

(* ===================================================================== *)
(** * src/models/server.py *)
(* ===================================================================== *)

Inductive ServerStatus : Type :=
| SS_UNKNOWN | SS_NOT_READY | SS_READY_FOR_TEST | SS_READY_FOR_TESTING
| SS_READY_FOR_CUTOVER | SS_CUTOVER_IN_PROGRESS | SS_CUTOVER_COMPLETE
| SS_CUTOVER_COMPLETED | SS_CUTOVER_FAILED | SS_TEST_IN_PROGRESS
| SS_TEST_COMPLETE | SS_TEST_COMPLETED | SS_TEST_FAILED | SS_STALLED
| SS_DISCONNECTED | SS_ERROR | SS_STOPPED.

Inductive ReplicationStatus : Type :=
| UNKNOWN | REPLICATING | REPLICATED | FAILED | STOPPED
| INITIAL_SYNC | BACKLOG | CONTINUOUS.

(** [datetime]: microseconds since the epoch and the UTC offset in
    minutes when the value is timezone-aware. *)
Inductive datetime : Type :=
| Datetime (micros : Z) (utcoffset : option Z).

Record SourceServer : Type := {
  source_server_id : pyval;
  name : pyval;
  status : ServerStatus;
  replication_status : ReplicationStatus;
  region : string;
  last_seen_date_time : option datetime;
  target_instance_id : pyval;
  target_instance_type : pyval;
  test_instance_id : pyval;
  test_instance_state : pyval;
  tags : list (pyval * pyval);
  description : pyval
}.

Record BulkOperationResult : Type := {
  server_id : string;
  server_name : pyval;
  success : bool;
  operation_type : string;
  timestamp : Q;
  error_message : pyval;
  instance_id : pyval
}.

Record BulkOperationProgress : Type := {
  total_servers : Z;
  completed : Z;
  successful : Z;
  failed : Z;
  in_progress : Z;
  results : list BulkOperationResult
}.

(** [BulkOperationProgress(total_servers=n)]: the dataclass defaults. *)
Definition new_progress (n : Z) : BulkOperationProgress :=
  {| total_servers := n; completed := 0; successful := 0; failed := 0;
     in_progress := 0; results := [] |}.

(** [a / b] on two [int]s: true division, raising on a zero divisor. *)
Definition py_truediv (a b : Z) : result Q :=
  if (b =? 0)%Z then Raise ZeroDivisionError
  else Ok (inject_Z a / inject_Z b)%Q.

Definition progress_percentage (p : BulkOperationProgress) : result Q :=
  if (total_servers p =? 0)%Z then Ok 0%Q
  else do q <- py_truediv (completed p) (total_servers p); Ok (q * 100)%Q.

Definition is_complete (p : BulkOperationProgress) : bool :=
  (total_servers p <=? completed p)%Z.

(* ===================================================================== *)
(** * src/utils/async_utils.py *)
(* ===================================================================== *)

(** ** RateLimiter *)

Record RateLimiter : Type := {
  max_calls : Z;
  time_window : Q;
  calls : list Q
}.

(** [RateLimiter(max_calls, time_window)]. *)
Definition new_limiter (m : Z) (w : Q) : RateLimiter :=
  {| max_calls := m; time_window := w; calls := [] |}.

Definition set_calls (l : RateLimiter) (cs : list Q) : RateLimiter :=
  {| max_calls := max_calls l; time_window := time_window l; calls := cs |}.

Definition Qltb (a b : Q) : bool := negb (Qle_bool b a).

(** The list comprehension of [acquire]: the calls still inside the
    window at clock reading [now]. *)
Definition live_calls (l : RateLimiter) (now : Q) : list Q :=
  List.filter (fun call_time => Qltb (now - call_time) (time_window l)) (calls l).

(** One pass through the body of [acquire], from the first reading
    [now] of the clock to either the [append] (with the second reading
    [now2]) or the [await asyncio.sleep].  A pass contains no suspension
    point, so it is atomic with respect to the other coroutines. *)
Inductive pass : Type :=
| Granted (l : RateLimiter)
| Suspend (sleep_time : Q) (l : RateLimiter)
| Crashed (e : exn) (l : RateLimiter).

Definition acquire_pass (l : RateLimiter) (now now2 : Q) : pass :=
  let kept := live_calls l now in
  let l1 := set_calls l kept in
  if (max_calls l <=? Z.of_nat (length kept))%Z then
    match kept with
    | [] => Crashed IndexError l1
    | oldest :: _ =>
        let sleep_time := (time_window l - (now - oldest))%Q in
        if Qltb 0 sleep_time then Suspend sleep_time l1
        else Granted (set_calls l1 (kept ++ [now2]))
    end
  else Granted (set_calls l1 (kept ++ [now2])).

(** The clock as the coroutine observes it: [tick now] is the second
    reading of [time.time()] in a pass whose first reading was [now];
    [wake now d] is the first reading after [asyncio.sleep(d)] was
    awaited at [now]. *)
Record Clock : Type := {
  tick : Q -> Q;
  wake : Q -> Q -> Q
}.

Definition clock_ok (c : Clock) : Prop :=
  (forall t, t <= tick c t)%Q /\ (forall t d, t + d <= wake c t d)%Q.

(** [await self.acquire()], entered at clock reading [now].  The
    recursive call after the sleep is the loop; [fuel] bounds the number
    of passes and [None] means that it ran out. *)
Fixpoint acquire (c : Clock) (fuel : nat) (now : Q) (l : RateLimiter)
  : option (result (Q * RateLimiter)) :=
  match fuel with
  | O => None
  | S fuel' =>
      match acquire_pass l now (tick c now) with
      | Granted l' => Some (Ok (tick c now, l'))
      | Suspend sleep_time l' => acquire c fuel' (wake c now sleep_time) l'
      | Crashed e _ => Some (Raise e)
      end
  end.

(** [reset()]. *)
Definition reset (l : RateLimiter) : RateLimiter := set_calls l [].

(** The limiter as a shared object: the passes of all coroutines, in
    the order in which they happen.  [lim_run m w t hist l]: starting
    from [RateLimiter(m, w)], the limiter is [l], the last clock reading
    was [t] and [hist] lists every timestamp ever recorded. *)
Inductive lim_run (m : Z) (w : Q) : Q -> list Q -> RateLimiter -> Prop :=
| run_start t :
    lim_run m w t [] (new_limiter m w)
| run_granted t hist l now now2 l' :
    lim_run m w t hist l ->
    (t <= now)%Q -> (now <= now2)%Q ->
    acquire_pass l now now2 = Granted l' ->
    lim_run m w now2 (hist ++ [now2]) l'
| run_suspend t hist l now now2 d l' :
    lim_run m w t hist l ->
    (t <= now)%Q ->
    acquire_pass l now now2 = Suspend d l' ->
    lim_run m w now hist l'
| run_crashed t hist l now now2 e l' :
    lim_run m w t hist l ->
    (t <= now)%Q ->
    acquire_pass l now now2 = Crashed e l' ->
    lim_run m w now hist l'.

(** Number of timestamps of [ts] inside the half-open window
    [[s, s + w)]. *)
Definition in_window (s w x : Q) : bool := Qle_bool s x && Qltb x (s + w).

Definition count_window (s w : Q) (ts : list Q) : nat :=
  length (List.filter (in_window s w) ts).

(** ** The concurrent executors *)

(** What a slot of [results] may hold: [None], a value returned by
    [func], or an exception object. *)
Inductive cell (R : Type) : Type :=
| CNone
| CVal (r : R)
| CExc (e : exn).
Arguments CNone {R}.
Arguments CVal {R} r.
Arguments CExc {R} e.

(** The outcome the caller is promised for one input: what [func]
    returned, or the exception it raised. *)
Definition unit_outcome {T R} (func : T -> result (cell R)) (item : T) : cell R :=
  match func item with
  | Ok v => v
  | Raise e => CExc e
  end.

(** The [for i, item in enumerate(items): if results[i] is None: ...
    break] loop of the async executor. *)
Fixpoint mark_first_none {R} (e : exn) (rs : list (cell R)) : list (cell R) :=
  match rs with
  | [] => []
  | CNone :: rest => CExc e :: rest
  | c :: rest => c :: mark_first_none e rest
  end.

(** The body of [for task in asyncio.as_completed(tasks)] for the task
    with index [index]. *)
Definition async_collect {T R} (func : T -> result (cell R)) (items : list T)
    (rs : list (cell R)) (index : nat) : list (cell R) :=
  match items !! index with
  | None => rs
  | Some item =>
      match func item with
      | Ok v => <[index := v]> rs
      | Raise e => mark_first_none e rs
      end
  end.

(** [run_concurrent_with_rate_limit(func, items)].  [schedule] is the
    order in which the tasks complete, the order in which
    [asyncio.as_completed] yields them.  The rate limiter and the
    semaphore only delay the units and the progress callback only
    observes them: they act on the result through [schedule] alone. *)
Definition run_concurrent_with_rate_limit {T R} (func : T -> result (cell R))
    (items : list T) (schedule : list nat) : list (cell R) :=
  fold_left (async_collect func items) schedule
            (replicate (length items) CNone).

(** The body of [for future in as_completed(future_to_index)]. *)
Definition sync_collect {T R} (func : T -> result (cell R)) (items : list T)
    (rs : list (cell R)) (index : nat) : list (cell R) :=
  match items !! index with
  | None => rs
  | Some item =>
      match func item with
      | Ok v => <[index := v]> rs
      | Raise e => <[index := CExc e]> rs
      end
  end.

(** [run_concurrent_sync(func, items)], [schedule] being the order in
    which the futures complete. *)
Definition run_concurrent_sync {T R} (func : T -> result (cell R))
    (items : list T) (schedule : list nat) : list (cell R) :=
  fold_left (sync_collect func items) schedule
            (replicate (length items) CNone).

(* ===================================================================== *)
(** * src/aws/mgn_client.py *)
(* ===================================================================== *)

(** The part of [MGNClient] that parsing reads: [self.aws_config.region]
    and [self.ec2_client].  The EC2 client is a remote capability:
    [describe_instances(InstanceIds=[i])] answers with a response or
    raises, and [None] stands for a client that is missing or falsy. *)
Record MGNClient : Type := {
  config_region : string;
  ec2_client : option (pyval -> result pyval)
}.

(** Two functions of the Python runtime that the parser calls:
    [datetime.fromisoformat] ([None] for [ValueError]) and the text that
    an f-string gives to a value that is not a [str]. *)
Record Runtime : Type := {
  fromisoformat : string -> option datetime;
  format_value : pyval -> string
}.

(** The scan of list-shaped tags in [_extract_server_name]. *)
Fixpoint find_name_tag (server_tags : list pyval) : result (option pyval) :=
  match server_tags with
  | [] => Ok None
  | PDict tag :: rest =>
      do k <- py_lower (get_or tag "key" (PStr ""));
      if String.eqb k "name" then Ok (Some (get_or tag "value" (PStr "Unknown")))
      else find_name_tag rest
  | _ :: rest => find_name_tag rest
  end.

Definition _extract_server_name (rt : Runtime) (server_data : list (string * pyval))
  : result pyval :=
  let server_tags := get_or server_data "tags" (PDict []) in
  do from_tags <-
    match server_tags with
    | PDict t => Ok (dict_get t "Name")
    | PList ts => find_name_tag ts
    | _ => Ok None
    end;
  match from_tags with
  | Some v => Ok v
  | None =>
      if truthy (get server_data "description") then Ok (get server_data "description")
      else
        let from_hostname :=
          match dict_get server_data "isArchived" with
          | Some (PBool false) =>
              match get_or server_data "sourceProperties" (PDict []) with
              | PDict source_props =>
                  match get_or source_props "identificationHints" (PDict []) with
                  | PDict identification_hints =>
                      if truthy (get identification_hints "hostname")
                      then Some (get identification_hints "hostname")
                      else None
                  | _ => None
                  end
              | _ => None
              end
          | _ => None
          end in
        match from_hostname with
        | Some h => Ok h
        | None =>
            match get_or server_data "sourceServerID" (PStr "Unknown") with
            | PStr server_id =>
                Ok (PStr ("Server-" ++
                          if (8 <=? String.length server_id)%nat
                          then prefix 8 server_id else server_id))
            | PList l =>
                Ok (PStr ("Server-" ++
                          format_value rt
                            (PList (if (8 <=? length l)%nat then take 8 l else l))))
            | PDict d =>
                if (8 <=? length d)%nat then Raise TypeError
                else Ok (PStr ("Server-" ++ format_value rt (PDict d)))
            | _ => Raise TypeError
            end
        end
  end.

Definition status_mapping : list (string * ServerStatus) :=
  [ ("READY_FOR_TEST", SS_READY_FOR_TEST);
    ("READY_FOR_TESTING", SS_READY_FOR_TESTING);
    ("READY_FOR_CUTOVER", SS_READY_FOR_CUTOVER);
    ("CUTOVER_IN_PROGRESS", SS_CUTOVER_IN_PROGRESS);
    ("CUTOVER_COMPLETE", SS_CUTOVER_COMPLETE);
    ("CUTOVER_COMPLETED", SS_CUTOVER_COMPLETED);
    ("STOPPED", SS_STOPPED);
    ("STALLED", SS_STALLED);
    ("ERROR", SS_ERROR);
    ("DISCONNECTED", SS_DISCONNECTED);
    ("NOT_READY", SS_NOT_READY);
    ("TEST_IN_PROGRESS", SS_TEST_IN_PROGRESS);
    ("TEST_COMPLETE", SS_TEST_COMPLETE);
    ("TEST_COMPLETED", SS_TEST_COMPLETED);
    ("TEST_FAILED", SS_TEST_FAILED) ].

Fixpoint mapping_get {A} (m : list (string * A)) (k : string) (dflt : A) : A :=
  match m with
  | [] => dflt
  | (k', v) :: rest => if String.eqb k' k then v else mapping_get rest k dflt
  end.

(** [status_mapping.get(aws_status, UNKNOWN)]: the key is hashed, so a
    list or a dict raises. *)
Definition _parse_server_status (aws_status : pyval) : result ServerStatus :=
  match aws_status with
  | PStr s => Ok (mapping_get status_mapping s SS_UNKNOWN)
  | PList _ | PDict _ => Raise TypeError
  | _ => Ok SS_UNKNOWN
  end.

Definition _parse_replication_status (replication_data : pyval) : ReplicationStatus :=
  match replication_data with
  | PDict d =>
      if negb (truthy replication_data) then UNKNOWN
      else
        let replication_state := get_or d "dataReplicationState" (PStr "") in
        if eq_str replication_state "STOPPED" then STOPPED
        else if eq_str replication_state "FAILED" then FAILED
        else if eq_str replication_state "INITIAL_SYNC" then INITIAL_SYNC
        else if eq_str replication_state "INITIAL_SYNC_COMPLETE" then REPLICATED
        else if eq_str replication_state "BACKLOG" then BACKLOG
        else if eq_str replication_state "CONTINUOUS" then CONTINUOUS
        else
          let lag_duration := get_or d "lagDuration" (PStr "") in
          if truthy lag_duration && negb (eq_str lag_duration "P0D") then REPLICATING
          else if truthy (get d "lastSnapshotDateTime") then REPLICATED
          else UNKNOWN
  | _ => UNKNOWN
  end.

(** [datetime.fromisoformat(s.replace('Z', '+00:00'))] under
    [try ... except ValueError]: a value without [replace] raises
    [AttributeError], which the handler does not catch. *)
Definition parse_timestamp (rt : Runtime) (v : pyval) : result (option datetime) :=
  match v with
  | PStr s => Ok (fromisoformat rt (replace_Z s))
  | _ => Raise AttributeError
  end.

(** The last-resort scan [for key, value in server_data.items()]. *)
Fixpoint scan_instance_id (items : list (string * pyval)) : option pyval :=
  match items with
  | [] => None
  | (_, PStr value) :: rest =>
      if startswith value "i-" && (10 <? String.length value)%nat
      then Some (PStr value) else scan_instance_id rest
  | _ :: rest => scan_instance_id rest
  end.

(** The body of the [try] around the EC2 lookup; [state] is the value of
    [test_instance_state] on entry. *)
Definition ec2_lookup (client : MGNClient) (test_instance_id state : pyval)
  : result pyval :=
  match ec2_client client with
  | None => Ok state
  | Some describe_instances =>
      do response <- describe_instances test_instance_id;
      do reservations <- py_get response "Reservations" PNone;
      if truthy reservations then
        do r0 <- (do rs <- subscript_key response "Reservations"; subscript_0 rs);
        do instance <- (do insts <- subscript_key r0 "Instances"; subscript_0 insts);
        do st <- py_get instance "State" (PDict []);
        py_get st "Name" (PStr "unknown")
      else Ok state
  end.

(** The loop that turns list-shaped tags into a dictionary. *)
Fixpoint collect_tags (server_tags : list pyval) (tags : list (pyval * pyval))
  : result (list (pyval * pyval)) :=
  match server_tags with
  | [] => Ok tags
  | PDict tag :: rest =>
      match dict_get tag "key", dict_get tag "value" with
      | Some k, Some v => do tags' <- setitem tags k v; collect_tags rest tags'
      | _, _ => collect_tags rest tags
      end
  | _ :: rest => collect_tags rest tags
  end.

(** The three places where [_parse_source_server] looks for a test
    instance: the launched instance, the [testInstanceID] field, and the
    scan of every field. *)
Definition find_test_instance (server_data : list (string * pyval)) : pyval * pyval :=
  let '(test_instance_id, test_instance_state) :=
    match get_or server_data "launchedInstance" (PDict []) with
    | PDict launched_instance =>
        (get launched_instance "ec2InstanceID", get launched_instance "state")
    | _ => (PNone, PNone)
    end in
  let '(test_instance_id, test_instance_state) :=
    if negb (truthy test_instance_id) then
      let test_instance_id := get server_data "testInstanceID" in
      if truthy test_instance_id then (test_instance_id, PStr "running")
      else (test_instance_id, test_instance_state)
    else (test_instance_id, test_instance_state) in
  if negb (truthy test_instance_id) then
    match scan_instance_id server_data with
    | Some value => (value, PStr "running")
    | None => (test_instance_id, test_instance_state)
    end
  else (test_instance_id, test_instance_state).

(** [if test_instance_id and not test_instance_state: try ... except
    Exception: test_instance_state = "unknown"]. *)
Definition resolve_instance_state (client : MGNClient)
    (test_instance_id test_instance_state : pyval) : pyval :=
  if truthy test_instance_id && negb (truthy test_instance_state) then
    match ec2_lookup client test_instance_id test_instance_state with
    | Ok state => state
    | Raise _ => PStr "unknown"
    end
  else test_instance_state.

Definition _parse_source_server (client : MGNClient) (rt : Runtime)
    (server_data : list (string * pyval)) : result SourceServer :=
  let source_server_id := get_or server_data "sourceServerID" (PStr "") in
  if negb (truthy source_server_id) then Raise (ValueError "Missing sourceServerID")
  else
  do name <- _extract_server_name rt server_data;
  do status <-
    match get_or server_data "lifeCycle" (PDict []) with
    | PDict life_cycle => _parse_server_status (get_or life_cycle "state" (PStr ""))
    | _ => Ok SS_UNKNOWN
    end;
  let replication_status :=
    match get_or server_data "dataReplicationInfo" (PDict []) with
    | PDict replication_data => _parse_replication_status (PDict replication_data)
    | _ => UNKNOWN
    end in
  do last_seen <-
    match get_or server_data "lastLaunchResult" (PDict []) with
    | PDict last_launch_result =>
        let last_seen_str := get last_launch_result "lastLaunchTime" in
        if truthy last_seen_str then parse_timestamp rt last_seen_str else Ok None
    | _ => Ok None
    end;
  do last_seen <-
    match last_seen with
    | Some _ => Ok last_seen
    | None =>
        match get_or server_data "lifeCycle" (PDict []) with
        | PDict life_cycle =>
            let last_seen_str := get life_cycle "lastSeenByServiceDateTime" in
            if truthy last_seen_str then parse_timestamp rt last_seen_str else Ok None
        | _ => Ok None
        end
    end;
  let '(test_instance_id, test_instance_state) := find_test_instance server_data in
  let test_instance_state :=
    resolve_instance_state client test_instance_id test_instance_state in
  let target_instance_id :=
    if contains server_data "targetInstanceIDRightSizingMethod"
    then get server_data "targetInstanceIDRightSizingMethod" else PNone in
  let target_instance_type :=
    match get_or server_data "sourceProperties" (PDict []) with
    | PDict source_props => get source_props "recommendedInstanceType"
    | _ => PNone
    end in
  do tags <-
    match get_or server_data "tags" (PDict []) with
    | PDict server_tags => Ok (map (fun kv => (PStr (fst kv), snd kv)) server_tags)
    | PList server_tags => collect_tags server_tags []
    | _ => Ok []
    end;
  Ok {| source_server_id := source_server_id;
        name := name;
        status := status;
        replication_status := replication_status;
        region := config_region client;
        last_seen_date_time := last_seen;
        target_instance_id := target_instance_id;
        target_instance_type := target_instance_type;
        test_instance_id := test_instance_id;
        test_instance_state := test_instance_state;
        tags := tags;
        description := get_or server_data "description" (PStr "") |}.

(** The character-wise iteration of a [str]. *)
Fixpoint chars (s : string) : list pyval :=
  match s with
  | EmptyString => []
  | String c rest => PStr (String c EmptyString) :: chars rest
  end.

(** What [for i, server_data in enumerate(items)] iterates over, after
    [len(items)] has been taken. *)
Definition response_items (response : pyval) : result (list pyval) :=
  match response with
  | PDict d =>
      match get_or d "items" (PList []) with
      | PList l => Ok l
      | PStr s => Ok (chars s)
      | PDict d' => Ok (map (fun kv => PStr (fst kv)) d')
      | _ => Raise TypeError
      end
  | PList l => Ok l
  | _ => Ok []
  end.

(** The loop over the records of a batch. *)
Fixpoint parse_batch (client : MGNClient) (rt : Runtime) (items : list pyval)
    (source_servers : list SourceServer) : list SourceServer :=
  match items with
  | [] => source_servers
  | PDict server_data :: rest =>
      match _parse_source_server client rt server_data with
      | Ok source_server =>
          parse_batch client rt rest (source_servers ++ [source_server])
      | Raise _ => parse_batch client rt rest source_servers
      end
  | _ :: rest => parse_batch client rt rest source_servers
  end.

(** [get_source_servers]; [api] is the outcome of
    [self.mgn_client.describe_source_servers(...)]. *)
Definition get_source_servers (client : MGNClient) (rt : Runtime)
    (api : result pyval) : result (list SourceServer) :=
  match api with
  | Ok response =>
      do items <- response_items response;
      Ok (parse_batch client rt items [])
  | Raise (ClientError code _ text) =>
      if String.eqb code "UnauthorizedOperation" then
        Raise (Exception
          "Insufficient permissions. Ensure your AWS credentials have MGN access.")
      else if String.eqb code "InvalidParameterValue" then
        Raise (Exception ("Invalid request parameters: " ++ text))
      else Raise (Exception ("AWS MGN error: " ++ text))
  | Raise e => Raise e
  end.

(** ** The remote actions *)

(** The remote service as the client sees it, threading its state [W]:
    every call may change it and either answers or raises. *)
Record Remote (W : Type) : Type := {
  update_launch_configuration :
    W -> string -> list (string * pyval) -> W * result unit;
  start_test : W -> string -> W * result pyval;
  stop_test : W -> string -> W * result pyval
}.
Arguments update_launch_configuration {W} _ _ _ _.
Arguments start_test {W} _ _ _.
Arguments stop_test {W} _ _ _.

(** The entries of [results['successful']] and [results['failed']]. *)
Record success_item : Type := {
  s_server_id : string;
  job_id : pyval;
  s_status : string
}.

Record failed_item : Type := {
  f_server_id : string;
  error : string
}.

Record action_results : Type := {
  r_successful : list success_item;
  r_failed : list failed_item;
  r_total : Z
}.

Definition new_results (n : nat) : action_results :=
  {| r_successful := []; r_failed := []; r_total := Z.of_nat n |}.

Definition add_successful (res : action_results) (item : success_item) :=
  {| r_successful := r_successful res ++ [item];
     r_failed := r_failed res; r_total := r_total res |}.

Definition add_failed (res : action_results) (item : failed_item) :=
  {| r_successful := r_successful res;
     r_failed := r_failed res ++ [item]; r_total := r_total res |}.

(** The [launch_config] dictionary built for every server. *)
Definition build_launch_config (instance_type subnet_id : pyval)
  : result (list (string * pyval)) :=
  let launch_config :=
    if truthy instance_type && negb (eq_str instance_type "Use recommended")
    then [("targetInstanceTypeRightSizingMethod", PStr "NONE");
          ("targetInstanceType", instance_type)]
    else [] in
  if truthy subnet_id then
    match subnet_id with
    | PStr s =>
        Ok (launch_config ++
            [("launchDisposition", PStr "STOPPED");
             ("subnetId", PStr (split_space_head s))])
    | _ => Raise AttributeError
    end
  else Ok launch_config.

(** [response.get('job', {}).get('jobID')]. *)
Definition response_job_id (response : pyval) : result pyval :=
  do job <- py_get response "job" (PDict []);
  py_get job "jobID" PNone.

(** The body of the inner [try] of [launch_test_instances]. *)
Definition launch_unit {W} (remote : Remote W) (instance_type subnet_id : pyval)
    (w : W) (server_id : string) : W * result success_item :=
  match build_launch_config instance_type subnet_id with
  | Raise e => (w, Raise e)
  | Ok launch_config =>
      let '(w1, r1) :=
        match launch_config with
        | [] => (w, Ok tt)
        | _ => update_launch_configuration remote w server_id launch_config
        end in
      match r1 with
      | Raise e => (w1, Raise e)
      | Ok _ =>
          let '(w2, r2) := start_test remote w1 server_id in
          (w2, do response <- r2;
               do j <- response_job_id response;
               Ok {| s_server_id := server_id; job_id := j;
                     s_status := "launched" |})
      end
  end.

(** The body of the inner [try] of [terminate_test_instances]. *)
Definition terminate_unit {W} (remote : Remote W) (w : W) (server_id : string)
  : W * result success_item :=
  let '(w1, r) := stop_test remote w server_id in
  (w1, do response <- r;
       do j <- response_job_id response;
       Ok {| s_server_id := server_id; job_id := j; s_status := "terminated" |}).

(** [for server_id in source_server_ids: try ... except ClientError]:
    a [ClientError] becomes a failed entry, any other exception leaves
    the loop. *)
Fixpoint action_loop {W} (unit : W -> string -> W * result success_item)
    (w : W) (source_server_ids : list string) (res : action_results)
  : W * result action_results :=
  match source_server_ids with
  | [] => (w, Ok res)
  | server_id :: rest =>
      let '(w', r) := unit w server_id in
      match r with
      | Ok item => action_loop unit w' rest (add_successful res item)
      | Raise (ClientError _ message _) =>
          action_loop unit w' rest
            (add_failed res {| f_server_id := server_id; error := message |})
      | Raise e => (w', Raise e)
      end
  end.

Definition launch_test_instances {W} (remote : Remote W)
    (instance_type subnet_id : pyval) (w : W) (source_server_ids : list string)
  : W * result action_results :=
  action_loop (launch_unit remote instance_type subnet_id) w source_server_ids
              (new_results (length source_server_ids)).

Definition terminate_test_instances {W} (remote : Remote W)
    (w : W) (source_server_ids : list string) : W * result action_results :=
  action_loop (terminate_unit remote) w source_server_ids
              (new_results (length source_server_ids)).

(* ===================================================================== *)
(** * src/ui/main_window.py: the bulk operation coordinator *)
(* ===================================================================== *)

(** [_get_server_name_by_id], over [self.servers]. *)
Fixpoint _get_server_name_by_id (servers : list SourceServer) (server_id : string)
  : pyval :=
  match servers with
  | [] => PStr ("Server-" ++ prefix 8 server_id)
  | server :: rest =>
      if eq_str (source_server_id server) server_id then name server
      else _get_server_name_by_id rest server_id
  end.

(** What the coordinator sees of its surroundings: the last known server
    list, the wall clock that stamps each result ([datetime.now()], the
    [k]-th reading being [now k]) and the text of an exception. *)
Record Coordinator : Type := {
  servers : list SourceServer;
  now : nat -> Q;
  exn_text : exn -> string
}.

(** One aggregation step for an entry of [results['successful']]:
    [append], [successful += 1], [completed += 1]. *)
Definition record_success (self : Coordinator) (op : string)
    (progress : BulkOperationProgress) (item : success_item) : BulkOperationProgress :=
  let result :=
    {| server_id := s_server_id item;
       server_name := _get_server_name_by_id (servers self) (s_server_id item);
       success := true;
       operation_type := op;
       timestamp := now self (length (results progress));
       error_message := PNone;
       instance_id := job_id item |} in
  {| total_servers := total_servers progress;
     completed := completed progress + 1;
     successful := successful progress + 1;
     failed := failed progress;
     in_progress := in_progress progress;
     results := results progress ++ [result] |}.

(** One aggregation step for a failure with message [msg]:
    [append], [failed += 1], [completed += 1]. *)
Definition record_failure (self : Coordinator) (op : string)
    (progress : BulkOperationProgress) (id : string) (msg : string)
  : BulkOperationProgress :=
  let result :=
    {| server_id := id;
       server_name := _get_server_name_by_id (servers self) id;
       success := false;
       operation_type := op;
       timestamp := now self (length (results progress));
       error_message := PStr msg;
       instance_id := PNone |} in
  {| total_servers := total_servers progress;
     completed := completed progress + 1;
     successful := successful progress;
     failed := failed progress + 1;
     in_progress := in_progress progress;
     results := results progress ++ [result] |}.

(** The units of work in the order in which the coordinator aggregates
    them. *)
Inductive completion : Type :=
| Succeeded (item : success_item)
| Failed_with (id : string) (msg : string).

Definition aggregate (self : Coordinator) (op : string)
    (progress : BulkOperationProgress) (c : completion) : BulkOperationProgress :=
  match c with
  | Succeeded item => record_success self op progress item
  | Failed_with id msg => record_failure self op progress id msg
  end.

(** The two [for] loops over [results]: first every success, then every
    failure. *)
Definition completions_of (res : action_results) : list completion :=
  map Succeeded (r_successful res) ++
  map (fun item => Failed_with (f_server_id item) (error item)) (r_failed res).

(** The loop of the [except] branch: every server fails with [str(e)]. *)
Definition all_failed (self : Coordinator) (e : exn) (server_ids : list string)
  : list completion :=
  map (fun id => Failed_with id (exn_text self e)) server_ids.

(** What is scheduled on the main thread with [self.after]. *)
Inductive ui_action : Type :=
| ShowErrorCount (failures : nat)
| ShowSuccessCount (successes : nat)
| ShowFailure (e : exn).

(** The observable steps of a bulk operation, each with the state of
    the progress object at that moment: the creation of the object, one
    aggregation step, a call of [progress_dialog.update_progress], and
    the scheduling of the final user-interface action. *)
Inductive event : Type :=
| Created (progress : BulkOperationProgress)
| Aggregated (progress : BulkOperationProgress)
| SinkCall (snapshot : BulkOperationProgress)
| Scheduled (action : ui_action).

(** The aggregation loops: the progress object after the completions
    [cs], and the log of the steps. *)
Fixpoint aggregate_all (self : Coordinator) (op : string) (cs : list completion)
    (progress : BulkOperationProgress) : list event * BulkOperationProgress :=
  match cs with
  | [] => ([], progress)
  | c :: rest =>
      let progress' := aggregate self op progress c in
      let '(log, final) := aggregate_all self op rest progress' in
      (Aggregated progress' :: log, final)
  end.

(** The completions that [launch_operation] or [terminate_operation]
    aggregates, given the outcome of the remote call. *)
Definition completions (self : Coordinator) (server_ids : list string)
    (outcome : result action_results) : list completion :=
  match outcome with
  | Ok res => completions_of res
  | Raise e => all_failed self e server_ids
  end.

(** The body shared by [launch_operation] and [terminate_operation],
    after the remote call has returned [outcome]: the final progress
    object and the log of what happened, in order. *)
Definition bulk_operation (self : Coordinator) (op : string)
    (server_ids : list string) (outcome : result action_results)
  : list event * BulkOperationProgress :=
  let progress := new_progress (Z.of_nat (length server_ids)) in
  let '(log, final) :=
    aggregate_all self op (completions self server_ids outcome) progress in
  let action :=
    match outcome with
    | Ok res =>
        match r_failed res with
        | [] => ShowSuccessCount (length (r_successful res))
        | _ => ShowErrorCount (length (r_failed res))
        end
    | Raise e => ShowFailure e
    end in
  (Created progress :: log ++ [SinkCall final; Scheduled action], final).

(** The snapshots that the progress sink receives, in order. *)
Definition sink_calls (log : list event) : list BulkOperationProgress :=
  omap (fun ev => match ev with SinkCall p => Some p | _ => None end) log.

(** Every state of the progress object that the log shows. *)
Definition progress_states (log : list event) : list BulkOperationProgress :=
  omap (fun ev =>
          match ev with
          | Created p | Aggregated p | SinkCall p => Some p
          | Scheduled _ => None
          end) log.

(** [launch_operation], the thread body of
    [_launch_test_instances_async]. *)
Definition launch_operation {W} (self : Coordinator) (remote : Remote W)
    (w : W) (server_ids : list string) (config : list (string * pyval))
  : W * (list event * BulkOperationProgress) :=
  let '(w', outcome) :=
    launch_test_instances remote (get config "instance_type")
                          (get config "subnet_id") w server_ids in
  (w', bulk_operation self "launch_test" server_ids outcome).

(** [terminate_operation], the thread body of
    [_terminate_test_instances_async]. *)
Definition terminate_operation {W} (self : Coordinator) (remote : Remote W)
    (w : W) (server_ids : list string)
  : W * (list event * BulkOperationProgress) :=
  let '(w', outcome) := terminate_test_instances remote w server_ids in
  (w', bulk_operation self "terminate_test" server_ids outcome).

(* ===================================================================== *)
(** * Specification-level definitions *)
(* ===================================================================== *)

(** The invariant of a progress object tracking [n] servers: the total
    is the one fixed at creation, [completed == successful + failed],
    every completion has its result, and [completed <= total_servers]. *)
Definition progress_inv (n : Z) (p : BulkOperationProgress) : Prop :=
  total_servers p = n
  /\ completed p = (successful p + failed p)%Z
  /\ completed p = Z.of_nat (length (results p))
  /\ (0 <= successful p)%Z /\ (0 <= failed p)%Z
  /\ (completed p <= total_servers p)%Z.

(** A remote service, used in the examples, that starts and stops every
    test and answers with the job [job-1]; its state counts the calls. *)
Definition obliging_remote : Remote nat :=
  {| update_launch_configuration := fun w _ _ => (S w, Ok tt);
     start_test := fun w _ =>
       (S w, Ok (PDict [("job", PDict [("jobID", PStr "job-1")])]));
     stop_test := fun w _ =>
       (S w, Ok (PDict [("job", PDict [("jobID", PStr "job-1")])])) |}.

(** A coordinator that knows no server, with a clock that reads the
    number of the reading. *)
Definition bare_coordinator : Coordinator :=
  {| servers := []; now := fun k => inject_Z (Z.of_nat k);
     exn_text := fun _ => "error" |}.

(** The launch of two tests against the obliging remote service. *)
Definition two_server_launch : nat * (list event * BulkOperationProgress) :=
  launch_operation bare_coordinator obliging_remote O ["s-1"; "s-2"] [].

(** The states of the progress object right after each completion. *)
Definition states_after_each_completion (log : list event)
  : list BulkOperationProgress :=
  omap (fun ev => match ev with Aggregated p => Some p | _ => None end) log.

(** A mapping function, used in the examples, that raises on the input
    [1] and returns ten times any other input. *)
Definition flaky (item : nat) : result (cell nat) :=
  if (item =? 1)%nat then Raise (Exception "boom") else Ok (CVal (item * 10)%nat).

(** ** Replication resolution as the specification words it *)

(** The fixed table of explicit replication states. *)
Definition replication_table : list (string * ReplicationStatus) :=
  [ ("STOPPED", STOPPED); ("FAILED", FAILED); ("INITIAL_SYNC", INITIAL_SYNC);
    ("INITIAL_SYNC_COMPLETE", REPLICATED); ("BACKLOG", BACKLOG);
    ("CONTINUOUS", CONTINUOUS) ].

Fixpoint table_lookup (table : list (string * ReplicationStatus)) (s : string)
  : option ReplicationStatus :=
  match table with
  | [] => None
  | (k, v) :: rest => if String.eqb s k then Some v else table_lookup rest s
  end.

(** Rule 1: an explicit [dataReplicationState] string of the table. *)
Definition explicit_state (d : list (string * pyval)) : option ReplicationStatus :=
  match dict_get d "dataReplicationState" with
  | Some (PStr s) => table_lookup replication_table s
  | _ => None
  end.

(** Rule 2: a lag duration that is present and is not the
    zero-duration sentinel. *)
Definition nonzero_lag (d : list (string * pyval)) : bool :=
  match dict_get d "lagDuration" with
  | Some v => truthy v && negb (eq_str v "P0D")
  | None => false
  end.

(** Rule 3: a last-snapshot timestamp is present. *)
Definition has_snapshot (d : list (string * pyval)) : bool :=
  match dict_get d "lastSnapshotDateTime" with
  | Some v => truthy v
  | None => false
  end.

Definition replication_spec (d : list (string * pyval)) : ReplicationStatus :=
  match explicit_state d with
  | Some r => r
  | None =>
      if nonzero_lag d then REPLICATING
      else if has_snapshot d then REPLICATED
      else UNKNOWN
  end.

(** ** Name resolution as the specification words it *)

(** An entry of list-shaped tags that is a map whose key is ["name"] up
    to case. *)
Definition is_name_tag (tag : pyval) : bool :=
  match tag with
  | PDict t =>
      match get_or t "key" (PStr "") with
      | PStr k => String.eqb (lower k) "name"
      | _ => false
      end
  | _ => false
  end.

(** An entry of list-shaped tags on which the scan does not raise: it
    is not a map, or its key is absent or a string. *)
Definition string_keyed (tag : pyval) : bool :=
  match tag with
  | PDict t =>
      match get_or t "key" (PStr "") with
      | PStr _ => true
      | _ => false
      end
  | _ => true
  end.

Definition tags_string_keyed (server_data : list (string * pyval)) : bool :=
  match get_or server_data "tags" (PDict []) with
  | PList ts => forallb string_keyed ts
  | _ => true
  end.

(** Rule 1: the tag named "Name". *)
Definition name_tag (server_data : list (string * pyval)) : option pyval :=
  match get_or server_data "tags" (PDict []) with
  | PDict t => dict_get t "Name"
  | PList ts =>
      match List.find is_name_tag ts with
      | Some (PDict t) => Some (get_or t "value" (PStr "Unknown"))
      | _ => None
      end
  | _ => None
  end.

(** Rule 2: a non-empty description. *)
Definition description_hint (server_data : list (string * pyval)) : option pyval :=
  match dict_get server_data "description" with
  | Some v => if truthy v then Some v else None
  | None => None
  end.

(** The value found by following the keys [ks] through nested maps. *)
Fixpoint path (v : pyval) (ks : list string) : option pyval :=
  match ks with
  | [] => Some v
  | k :: ks' =>
      match v with
      | PDict d =>
          match dict_get d k with
          | Some x => path x ks'
          | None => None
          end
      | _ => None
      end
  end.

(** Rule 3: the hostname hint of a record that is not archived. *)
Definition hostname_hint (server_data : list (string * pyval)) : option pyval :=
  match dict_get server_data "isArchived" with
  | Some (PBool false) =>
      match path (PDict server_data)
                 ["sourceProperties"; "identificationHints"; "hostname"] with
      | Some h => if truthy h then Some h else None
      | None => None
      end
  | _ => None
  end.

(** First match wins. *)
Fixpoint first_match (candidates : list (option pyval)) (fallback : pyval) : pyval :=
  match candidates with
  | [] => fallback
  | Some v :: _ => v
  | None :: rest => first_match rest fallback
  end.

Definition name_spec (id : string) (server_data : list (string * pyval)) : pyval :=
  first_match
    [name_tag server_data; description_hint server_data; hostname_hint server_data]
    (PStr ("Server-" ++ prefix 8 id)).

(** A runtime for the examples: no timestamp parses and every value
    that is not a string prints as ["?"]. *)
Definition plain_runtime : Runtime :=
  {| fromisoformat := fun _ => None; format_value := fun _ => "?" |}.

(** A record whose only name hint is the tag [Name = db01]. *)
Definition db01_record : list (string * pyval) :=
  [ ("sourceServerID", PStr "s-1234567890abcdef");
    ("tags", PList [PDict [("key", PStr "Name"); ("value", PStr "db01")]]) ].

(** A record with two tags named "Name" up to case, the second without
    a value. *)
Definition two_name_tags_record : list (string * pyval) :=
  [ ("sourceServerID", PStr "s-1234567890abcdef");
    ("tags", PList [PDict [("key", PStr "Name"); ("value", PStr "db01")];
                    PDict [("key", PStr "name")]]) ].

(** A record whose tag named "Name" has no value, with a description and
    a hostname. *)
Definition valueless_name_record : list (string * pyval) :=
  [ ("sourceServerID", PStr "s-1234567890abcdef");
    ("description", PStr "database server");
    ("isArchived", PBool false);
    ("sourceProperties",
       PDict [("identificationHints", PDict [("hostname", PStr "db01.lan")])]);
    ("tags", PList [PDict [("key", PStr "Env"); ("value", PStr "prod")];
                    PDict [("key", PStr "NAME")]]) ].

(** ** Reconciliation of a batch *)

(** What one item of a batch contributes to the listing: its record
    when it is a map that parses, nothing otherwise. *)
Definition parsed (client : MGNClient) (rt : Runtime) (item : pyval)
  : option SourceServer :=
  match item with
  | PDict server_data =>
      match _parse_source_server client rt server_data with
      | Ok source_server => Some source_server
      | Raise _ => None
      end
  | _ => None
  end.

(** A record lacks a non-empty [sourceServerID]: the field is absent or
    falsy. *)
Definition lacks_id (server_data : list (string * pyval)) : bool :=
  negb (truthy (get_or server_data "sourceServerID" (PStr ""))).

Definition result_map {A B} (f : A -> B) (r : result A) : result B :=
  match r with
  | Ok a => Ok (f a)
  | Raise e => Raise e
  end.

(** A server record with its test instance state blanked. *)
Definition forget_state (s : SourceServer) : SourceServer :=
  {| source_server_id := source_server_id s;
     name := name s;
     status := status s;
     replication_status := replication_status s;
     region := region s;
     last_seen_date_time := last_seen_date_time s;
     target_instance_id := target_instance_id s;
     target_instance_type := target_instance_type s;
     test_instance_id := test_instance_id s;
     test_instance_state := PNone;
     tags := tags s;
     description := description s |}.

(** The record has a test instance id and no state for it, which is
    when [_parse_source_server] asks EC2. *)
Definition needs_lookup (server_data : list (string * pyval)) : bool :=
  truthy (fst (find_test_instance server_data))
  && negb (truthy (snd (find_test_instance server_data))).

(** A client, for the examples, whose EC2 capability reports every
    instance in the state [state]. *)
Definition ec2_says (state : string) : MGNClient :=
  {| config_region := "us-east-1";
     ec2_client := Some (fun _ =>
       Ok (PDict [("Reservations",
             PList [PDict [("Instances",
               PList [PDict [("State", PDict [("Name", PStr state)])]])]])])) |}.

(** A record with a launched instance whose state the service did not
    report. *)
Definition launched_record : list (string * pyval) :=
  [ ("sourceServerID", PStr "s-1234567890abcdef");
    ("launchedInstance", PDict [("ec2InstanceID", PStr "i-0123456789abcdef0")]) ].

(** A record without [sourceServerID]. *)
Definition nameless_record : list (string * pyval) :=
  [ ("description", PStr "orphan") ].

(** The two fields of a parsed record that come from the client: the
    region of its configuration and the state that its EC2 capability
    resolves for the test instance of the record. *)
Definition with_client (client : MGNClient) (server_data : list (string * pyval))
    (s : SourceServer) : SourceServer :=
  {| source_server_id := source_server_id s;
     name := name s;
     status := status s;
     replication_status := replication_status s;
     region := config_region client;
     last_seen_date_time := last_seen_date_time s;
     target_instance_id := target_instance_id s;
     target_instance_type := target_instance_type s;
     test_instance_id := test_instance_id s;
     test_instance_state :=
       resolve_instance_state client (fst (find_test_instance server_data))
                              (snd (find_test_instance server_data));
     tags := tags s;
     description := description s |}.

(** ** Counting timestamps *)

(** Number of timestamps of [ts] later than [a]. *)
Definition count_after (a : Q) (ts : list Q) : nat :=
  length (List.filter (fun x => Qltb a x) ts).

(** A clock, for the examples, that does not advance during a pass and
    wakes a sleeper exactly on time. *)
Definition exact_clock : Clock :=
  {| tick := fun t => t; wake := fun t d => (t + d)%Q |}.

(** A limiter of three calls per second that has recorded three calls
    in the last second before the clock reading [1]. *)
Definition full_limiter : RateLimiter :=
  {| max_calls := 3; time_window := 1;
     calls := [(1 # 4)%Q; (1 # 2)%Q; (3 # 4)%Q] |}.

(** The invariant of the shared limiter [RateLimiter(m, w)] at clock
    reading [t], [hist] being every timestamp recorded so far: the
    recorded calls are in the order of their timestamps, none is in the
    future, the calls dropped from the list are at least a window old,
    and no window holds more than [m] timestamps of [hist]. *)
Definition lim_inv (m : Z) (w t : Q) (hist : list Q) (l : RateLimiter) : Prop :=
  max_calls l = m
  /\ time_window l = w
  /\ StronglySorted Qle (calls l)
  /\ List.Forall (fun x => (x <= t)%Q) (calls l)
  /\ (forall a, (t - w <= a)%Q -> count_after a hist = count_after a (calls l))
  /\ (hist <> [] -> (1 <= m)%Z)
  /\ (forall s, (Z.of_nat (count_window s w hist) <= Z.max 0 m)%Z).

(* ===================================================================== *)
(** * Further code of the cited files and of their callers *)
(* ===================================================================== *)

(** ** src/utils/async_utils.py: BulkOperationManager *)

(** [isinstance(r, Exception)] on a slot of [results]. *)
Definition is_exception {R} (c : cell R) : bool :=
  match c with
  | CExc _ => true
  | _ => false
  end.

(** [execute_bulk_operation]: the results of the async executor, with
    the two counts [(successes, failures)] of its closing log line. *)
Definition execute_bulk_operation {T R} (func : T -> result (cell R))
    (items : list T) (schedule : list nat) : list (cell R) * (nat * nat) :=
  let results := run_concurrent_with_rate_limit func items schedule in
  let successes := length (List.filter (fun r => negb (is_exception r)) results) in
  let failures := (length results - successes)%nat in
  (results, (successes, failures)).

(** A unit ends in an exception: it raised one or returned one. *)
Definition ends_in_exception {T R} (func : T -> result (cell R)) (item : T) : bool :=
  is_exception (unit_outcome func item).

(** ** src/ui/bulk_actions.py: the launch configuration of the dialog *)

(** [BulkTestLaunchDialog.get_launch_configuration], from the values of
    the subnet and instance type selectors. *)
Definition get_launch_configuration (subnet_var instance_type_var : string)
  : list (string * pyval) :=
  [("subnet_id", PStr (split_space_head subnet_var))]
  ++ (if negb (String.eqb instance_type_var "Use recommended")
      then [("instance_type", PStr instance_type_var)] else []).

(** ** src/ui/server_list.py: filtering the server list *)

Definition ServerStatus_eqb (a b : ServerStatus) : bool :=
  match a, b with
  | SS_UNKNOWN, SS_UNKNOWN | SS_NOT_READY, SS_NOT_READY
  | SS_READY_FOR_TEST, SS_READY_FOR_TEST
  | SS_READY_FOR_TESTING, SS_READY_FOR_TESTING
  | SS_READY_FOR_CUTOVER, SS_READY_FOR_CUTOVER
  | SS_CUTOVER_IN_PROGRESS, SS_CUTOVER_IN_PROGRESS
  | SS_CUTOVER_COMPLETE, SS_CUTOVER_COMPLETE
  | SS_CUTOVER_COMPLETED, SS_CUTOVER_COMPLETED
  | SS_CUTOVER_FAILED, SS_CUTOVER_FAILED
  | SS_TEST_IN_PROGRESS, SS_TEST_IN_PROGRESS
  | SS_TEST_COMPLETE, SS_TEST_COMPLETE
  | SS_TEST_COMPLETED, SS_TEST_COMPLETED
  | SS_TEST_FAILED, SS_TEST_FAILED | SS_STALLED, SS_STALLED
  | SS_DISCONNECTED, SS_DISCONNECTED | SS_ERROR, SS_ERROR
  | SS_STOPPED, SS_STOPPED => true
  | _, _ => false
  end.

(** The value of a [ServerStatus] member, from [models/server.py]. *)
Definition status_value (st : ServerStatus) : string :=
  match st with
  | SS_UNKNOWN => "UNKNOWN"
  | SS_NOT_READY => "NOT_READY"
  | SS_READY_FOR_TEST => "READY_FOR_TEST"
  | SS_READY_FOR_TESTING => "READY_FOR_TESTING"
  | SS_READY_FOR_CUTOVER => "READY_FOR_CUTOVER"
  | SS_CUTOVER_IN_PROGRESS => "CUTOVER_IN_PROGRESS"
  | SS_CUTOVER_COMPLETE => "CUTOVER_COMPLETE"
  | SS_CUTOVER_COMPLETED => "CUTOVER_COMPLETED"
  | SS_CUTOVER_FAILED => "CUTOVER_FAILED"
  | SS_TEST_IN_PROGRESS => "TEST_IN_PROGRESS"
  | SS_TEST_COMPLETE => "TEST_COMPLETE"
  | SS_TEST_COMPLETED => "TEST_COMPLETED"
  | SS_TEST_FAILED => "TEST_FAILED"
  | SS_STALLED => "STALLED"
  | SS_DISCONNECTED => "DISCONNECTED"
  | SS_ERROR => "ERROR"
  | SS_STOPPED => "STOPPED"
  end.

(** [status_display_map] of [_update_status_filter_options]: the name
    under which the status filter offers a status.  The dictionary has
    an entry for every member. *)
Definition status_display_map (st : ServerStatus) : string :=
  match st with
  | SS_READY_FOR_TEST => "Ready for Test"
  | SS_READY_FOR_TESTING => "Ready for Testing"
  | SS_READY_FOR_CUTOVER => "Ready for Cutover"
  | SS_TEST_IN_PROGRESS => "Test in Progress"
  | SS_CUTOVER_IN_PROGRESS => "Cutover in Progress"
  | SS_TEST_COMPLETE => "Test Complete"
  | SS_TEST_COMPLETED => "Test Completed"
  | SS_CUTOVER_COMPLETE => "Cutover Complete"
  | SS_CUTOVER_COMPLETED => "Cutover Completed"
  | SS_TEST_FAILED => "Test Failed"
  | SS_CUTOVER_FAILED => "Cutover Failed"
  | SS_NOT_READY => "Not Ready"
  | SS_DISCONNECTED => "Disconnected"
  | SS_STALLED => "Stalled"
  | SS_ERROR => "Error"
  | SS_STOPPED => "Stopped"
  | SS_UNKNOWN => "Unknown"
  end.

(** A value of [status_map] in [_matches_filter]: one status or a list
    of statuses. *)
Inductive expected_status : Type :=
| OneStatus (st : ServerStatus)
| AnyOf (sts : list ServerStatus).

Definition status_map : list (string * expected_status) :=
  [ ("Ready for Test", OneStatus SS_READY_FOR_TEST);
    ("Ready for Testing", OneStatus SS_READY_FOR_TESTING);
    ("Ready for Cutover", OneStatus SS_READY_FOR_CUTOVER);
    ("Test in Progress", OneStatus SS_TEST_IN_PROGRESS);
    ("Test Completed", AnyOf [SS_TEST_COMPLETE; SS_TEST_COMPLETED]);
    ("Test Failed", OneStatus SS_TEST_FAILED);
    ("Cutover in Progress", OneStatus SS_CUTOVER_IN_PROGRESS);
    ("Cutover Completed", AnyOf [SS_CUTOVER_COMPLETE; SS_CUTOVER_COMPLETED]);
    ("Cutover Failed", OneStatus SS_CUTOVER_FAILED);
    ("Stalled", OneStatus SS_STALLED);
    ("Disconnected", OneStatus SS_DISCONNECTED);
    ("Not Ready", OneStatus SS_NOT_READY);
    ("Error", OneStatus SS_ERROR) ].

Fixpoint status_map_get (m : list (string * expected_status)) (k : string)
  : option expected_status :=
  match m with
  | [] => None
  | (k', v) :: rest => if String.eqb k' k then Some v else status_map_get rest k
  end.

(** [needle in hay] on two strings. *)
Fixpoint is_substring (needle hay : string) : bool :=
  startswith hay needle
  || match hay with
     | EmptyString => false
     | String _ rest => is_substring needle rest
     end.

(** The status part of [_matches_filter]: [false] where the code
    returns [False] at once, [true] where it goes on to the search. *)
Definition status_matches (status_var : string) (server : SourceServer) : bool :=
  if negb (String.eqb status_var "All") then
    match status_map_get status_map status_var with
    | None => false
    | Some (AnyOf sts) => existsb (ServerStatus_eqb (status server)) sts
    | Some (OneStatus st) => ServerStatus_eqb (status server) st
    end
  else true.

(** [_matches_filter], for the values of the status and search
    variables. *)
Definition _matches_filter (status_var search_var : string) (server : SourceServer)
  : result bool :=
  if negb (status_matches status_var server) then Ok false
  else
    let search_term := lower search_var in
    if negb (String.eqb search_term "") then
      do n <- py_lower (name server);
      if negb (is_substring search_term n) then
        do i <- py_lower (source_server_id server);
        Ok (is_substring search_term i)
      else Ok true
    else Ok true.

(** The loop of [_apply_filters]. *)
Fixpoint _apply_filters (status_var search_var : string) (servers : list SourceServer)
    (filtered_servers : list SourceServer) : result (list SourceServer) :=
  match servers with
  | [] => Ok filtered_servers
  | server :: rest =>
      do keep <- _matches_filter status_var search_var server;
      _apply_filters status_var search_var rest
        (if keep then filtered_servers ++ [server] else filtered_servers)
  end.

(** A mapping function, used in the examples, that never raises. *)
Definition tenfold (item : nat) : result (cell nat) := Ok (CVal (item * 10)%nat).

(** What a result row shows of its unit: the server id, whether it
    succeeded, the error message and the job id. *)
Definition result_summary (r : BulkOperationResult) : string * bool * pyval * pyval :=
  (server_id r, success r, error_message r, instance_id r).

Definition completion_summary (c : completion) : string * bool * pyval * pyval :=
  match c with
  | Succeeded item => (s_server_id item, true, PNone, job_id item)
  | Failed_with id msg => (id, false, PStr msg, PNone)
  end.

Definition is_success (c : completion) : bool :=
  match c with
  | Succeeded _ => true
  | Failed_with _ _ => false
  end.

(** A remote service, for the examples, that starts the first test it
    is asked for and then times out: every later call raises an
    exception that is no [ClientError]. *)
Definition timing_out_remote : Remote nat :=
  {| update_launch_configuration := fun w _ _ => (S w, Ok tt);
     start_test := fun w _ =>
       match w with
       | O => (S w, Ok (PDict [("job", PDict [("jobID", PStr "job-1")])]))
       | S _ => (S w, Raise (Exception "timed out"))
       end;
     stop_test := fun w _ => (S w, Raise (Exception "timed out")) |}.

(** A remote service, for the examples, that throttles every call. *)
Definition throttling_remote : Remote nat :=
  {| update_launch_configuration := fun w _ _ =>
       (S w, Raise (ClientError "ThrottlingException" "throttled" "throttled"));
     start_test := fun w _ =>
       (S w, Raise (ClientError "ThrottlingException" "throttled" "throttled"));
     stop_test := fun w _ =>
       (S w, Raise (ClientError "ThrottlingException" "throttled" "throttled")) |}.

(** The remote service [remote] with another
    [update_launch_configuration]. *)
Definition with_update {W} (remote : Remote W)
    (u : W -> string -> list (string * pyval) -> W * result unit) : Remote W :=
  {| update_launch_configuration := u;
     start_test := start_test remote;
     stop_test := stop_test remote |}.

(** No launch configuration is asked for: no instance type or the
    recommended one, and no subnet. *)
Definition no_launch_config (instance_type subnet_id : pyval) : bool :=
  (negb (truthy instance_type) || eq_str instance_type "Use recommended")
  && negb (truthy subnet_id).

(** [d[k]] on a dictionary with arbitrary hashable keys. *)
Fixpoint assoc_get (d : list (pyval * pyval)) (k : pyval) : option pyval :=
  match d with
  | [] => None
  | (k', v) :: rest => if key_eqb k' k then Some v else assoc_get rest k
  end.

(** The id under which an item of a batch would be listed. *)
Definition record_id (item : pyval) : option pyval :=
  match item with
  | PDict server_data => Some (get_or server_data "sourceServerID" (PStr ""))
  | _ => None
  end.

(** The shape that the last-resort scan takes for an instance id. *)
Definition instance_id_shaped (s : string) : bool :=
  startswith s "i-" && (10 <? String.length s)%nat.

(** A server, for the examples, with the given name and status. *)
Definition example_server (n : pyval) (st : ServerStatus) : SourceServer :=
  {| source_server_id := PStr "s-1234567890abcdef";
     name := n;
     status := st;
     replication_status := UNKNOWN;
     region := "us-east-1";
     last_seen_date_time := None;
     target_instance_id := PNone;
     target_instance_type := PNone;
     test_instance_id := PNone;
     test_instance_state := PNone;
     tags := [];
     description := PStr "" |}.

(* ===================================================================== *)
(** * Properties of the progress model *)
(* ===================================================================== *)

Lemma py_truediv_nonzero (a b : Z) :
  b <> 0%Z -> py_truediv a b = Ok (inject_Z a / inject_Z b)%Q.
Proof.
  intros Hb. unfold py_truediv.
  destruct (Z.eqb_spec b 0) as [->|_]; [contradiction|reflexivity].
Qed.



(* ===================================================================== *)
(** * Properties of the coordinator *)
(* ===================================================================== *)

Section Aggregation.

Variable self : Coordinator.
Variable op : string.

Lemma aggregate_counters (p : BulkOperationProgress) (c : completion) :
  total_servers (aggregate self op p c) = total_servers p
  /\ completed (aggregate self op p c) = (completed p + 1)%Z
  /\ (successful (aggregate self op p c) + failed (aggregate self op p c)
      = successful p + failed p + 1)%Z
  /\ (successful p <= successful (aggregate self op p c))%Z
  /\ (failed p <= failed (aggregate self op p c))%Z
  /\ length (results (aggregate self op p c)) = S (length (results p)).
Proof.
  destruct c; simpl; rewrite length_app; simpl; repeat split; lia.
Qed.

(** The log of the aggregation loops holds one [Aggregated] step per
    completion, and the [k]-th step has [completed] raised by [k]. *)
Lemma aggregate_all_log (cs : list completion) :
  forall p log final,
    aggregate_all self op cs p = (log, final) ->
    exists steps,
      log = map Aggregated steps
      /\ length steps = length cs
      /\ completed final = (completed p + Z.of_nat (length cs))%Z
      /\ total_servers final = total_servers p
      /\ final = fold_left (aggregate self op) cs p
      /\ Forall (fun q =>
                   total_servers q = total_servers p
                   /\ (completed q <= completed p + Z.of_nat (length cs))%Z) steps
      /\ ((completed p = successful p + failed p)%Z ->
          completed p = Z.of_nat (length (results p)) ->
          (0 <= successful p)%Z -> (0 <= failed p)%Z ->
          Forall (fun q =>
                    completed q = (successful q + failed q)%Z
                    /\ completed q = Z.of_nat (length (results q))
                    /\ (0 <= successful q)%Z /\ (0 <= failed q)%Z) (steps ++ [final])).
Proof.
  induction cs as [|c rest IH]; intros p log final Hrun; simpl in Hrun.
  - injection Hrun as <- <-. exists []. simpl.
    repeat split; try lia; try constructor; auto.
  - destruct (aggregate_all self op rest (aggregate self op p c)) as [log' final'] eqn:Hrest.
    injection Hrun as <- <-.
    destruct (IH _ _ _ Hrest) as (steps & Hlog & Hlen & Hdone & Htot & Hfold & Hbound & Hinv).
    destruct (aggregate_counters p c) as (Ht & Hc & Hsf & Hs & Hf & Hr).
    exists (aggregate self op p c :: steps).
    cbn [map length app fold_left]. rewrite Nat2Z.inj_succ.
    repeat split.
    + now rewrite Hlog.
    + now rewrite Hlen.
    + rewrite Hdone, Hc. lia.
    + now rewrite Htot.
    + exact Hfold.
    + constructor.
      * split; [exact Ht|]. rewrite Hc. lia.
      * eapply Forall_impl; [exact Hbound|].
        intros q [Hq1 Hq2]. split; [congruence|]. lia.
    + intros I1 I2 I3 I4.
      assert (Hstep : (completed (aggregate self op p c)
                       = successful (aggregate self op p c)
                         + failed (aggregate self op p c))%Z) by lia.
      assert (Hres : completed (aggregate self op p c)
                     = Z.of_nat (length (results (aggregate self op p c)))).
      { rewrite Hc, Hr. lia. }
      constructor.
      * repeat split; try assumption; lia.
      * apply Hinv; try assumption; lia.
Qed.

End Aggregation.

(** Every server id handed to a remote loop ends in exactly one of the
    two lists of its result. *)
Lemma action_loop_count {W} (unit : W -> string -> W * result success_item)
    (ids : list string) :
  forall w res w' res',
    action_loop unit w ids res = (w', Ok res') ->
    (length (r_successful res') + length (r_failed res')
     = length (r_successful res) + length (r_failed res) + length ids)%nat.
Proof.
  induction ids as [|id rest IH]; intros w res w' res' Hrun; simpl in Hrun.
  - injection Hrun as <- <-. simpl. lia.
  - destruct (unit w id) as [w1 [item|e]]; cbn [length].
    + apply IH in Hrun. simpl in Hrun. rewrite length_app in Hrun. simpl in Hrun. lia.
    + destruct e; try discriminate.
      apply IH in Hrun. simpl in Hrun. rewrite length_app in Hrun. simpl in Hrun. lia.
Qed.

Lemma completions_length {W} (self : Coordinator)
    (unit : W -> string -> W * result success_item) (w : W) (ids : list string) :
  length (completions self ids
            (snd (action_loop unit w ids (new_results (length ids)))))
  = length ids.
Proof.
  destruct (action_loop unit w ids (new_results (length ids))) as [w' [res|e]] eqn:Hrun;
    simpl.
  - apply action_loop_count in Hrun. simpl in Hrun.
    unfold completions_of. rewrite length_app, !length_map. lia.
  - unfold all_failed. now rewrite length_map.
Qed.

Lemma progress_states_log (p0 final : BulkOperationProgress)
    (steps : list BulkOperationProgress) (action : ui_action) :
  progress_states (Created p0 :: map Aggregated steps ++ [SinkCall final; Scheduled action])
  = p0 :: steps ++ [final].
Proof.
  unfold progress_states. cbn [omap list_omap]. f_equal.
  induction steps as [|q steps IH]; [reflexivity|].
  cbn [map app omap list_omap]. now rewrite IH.
Qed.

Lemma sink_calls_log (p0 final : BulkOperationProgress)
    (steps : list BulkOperationProgress) (action : ui_action) :
  sink_calls (Created p0 :: map Aggregated steps ++ [SinkCall final; Scheduled action])
  = [final].
Proof.
  unfold sink_calls. cbn [omap list_omap].
  induction steps as [|q steps IH]; [reflexivity|].
  cbn [map app omap list_omap]. exact IH.
Qed.

(** The shape of the log of a bulk operation whose remote call produced
    one completion per server id. *)
Lemma bulk_operation_log (self : Coordinator) (op : string)
    (server_ids : list string) (outcome : result action_results) :
  length (completions self server_ids outcome) = length server_ids ->
  exists steps action,
    fst (bulk_operation self op server_ids outcome)
    = Created (new_progress (Z.of_nat (length server_ids)))
        :: map Aggregated steps
        ++ [SinkCall (snd (bulk_operation self op server_ids outcome));
            Scheduled action]
    /\ length steps = length server_ids
    /\ Forall (progress_inv (Z.of_nat (length server_ids)))
              (new_progress (Z.of_nat (length server_ids))
                 :: steps ++ [snd (bulk_operation self op server_ids outcome)])
    /\ completed (snd (bulk_operation self op server_ids outcome))
       = Z.of_nat (length server_ids)
    /\ snd (bulk_operation self op server_ids outcome)
       = fold_left (aggregate self op) (completions self server_ids outcome)
                   (new_progress (Z.of_nat (length server_ids))).
Proof.
  intros Hlen. unfold bulk_operation.
  set (n := Z.of_nat (length server_ids)).
  destruct (aggregate_all self op (completions self server_ids outcome) (new_progress n))
    as [log final] eqn:Hrun.
  destruct (aggregate_all_log self op _ _ _ _ Hrun)
    as (steps & Hlog & Hsteps & Hdone & Htot & Hfold & Hbound & Hinv).
  rewrite Hlen in Hsteps, Hdone, Hbound. simpl in Hdone, Htot, Hbound.
  fold n in Hdone, Hbound.
  eexists steps, _. cbn [fst snd]. subst log.
  split; [reflexivity|]. split; [exact Hsteps|].
  split; [|split; [lia|exact Hfold]].
  assert (Hall : Forall (fun q =>
                   completed q = (successful q + failed q)%Z
                   /\ completed q = Z.of_nat (length (results q))
                   /\ (0 <= successful q)%Z /\ (0 <= failed q)%Z) (steps ++ [final])).
  { apply Hinv; simpl; lia. }
  constructor.
  - unfold progress_inv, n. simpl. repeat split; lia.
  - apply Forall_app. apply Forall_app in Hall. destruct Hall as [Hs Hf].
    split.
    + apply Forall_forall. intros q Hq.
      pose proof (proj1 (Forall_forall _ _) Hs q Hq) as (A & B & C & D).
      pose proof (proj1 (Forall_forall _ _) Hbound q Hq) as (E & F).
      unfold progress_inv. rewrite E. repeat split; try assumption; lia.
    + constructor; [|constructor].
      apply Forall_inv in Hf. destruct Hf as (A & B & C & D).
      unfold progress_inv. rewrite Htot. repeat split; try assumption; lia.
Qed.

(** Both operations are [bulk_operation] applied to the outcome of a
    remote loop, which yields one completion per server id. *)
Lemma operations_are_bulk {W} (self : Coordinator) (remote : Remote W)
    (w : W) (server_ids : list string) (config : list (string * pyval)) run :
  run = snd (launch_operation self remote w server_ids config)
  \/ run = snd (terminate_operation self remote w server_ids) ->
  exists op outcome,
    run = bulk_operation self op server_ids outcome
    /\ length (completions self server_ids outcome) = length server_ids.
Proof.
  intros [-> | ->].
  - unfold launch_operation, launch_test_instances.
    pose proof (completions_length self
                  (launch_unit remote (get config "instance_type")
                               (get config "subnet_id")) w server_ids) as Hlen.
    destruct (action_loop _ w server_ids _) as [w' outcome].
    exists "launch_test", outcome. split; [reflexivity|exact Hlen].
  - unfold terminate_operation, terminate_test_instances.
    pose proof (completions_length self (terminate_unit remote) w server_ids) as Hlen.
    destruct (action_loop _ w server_ids _) as [w' outcome].
    exists "terminate_test", outcome. split; [reflexivity|exact Hlen].
Qed.

(** C3.  [completed == successful + failed] is an invariant of the
    progress object: it holds at creation, where every counter is zero,
    every aggregation step of the coordinator preserves it, and every
    state that a launch or a terminate operation over [N] server ids
    goes through satisfies it together with [completed <= total_servers];
    at the end [successful + failed == completed == N]. *)
Theorem bulk_progress_invariant {W} (self : Coordinator) (remote : Remote W)
    (w : W) (server_ids : list string) (config : list (string * pyval)) :
  let n := Z.of_nat (length server_ids) in
  (progress_inv n (new_progress n)
   /\ completed (new_progress n) = 0%Z
   /\ successful (new_progress n) = 0%Z
   /\ failed (new_progress n) = 0%Z)
  /\ (forall op p c,
        completed p = (successful p + failed p)%Z ->
        completed (aggregate self op p c)
        = (successful (aggregate self op p c) + failed (aggregate self op p c))%Z)
  /\ (forall run,
        run = snd (launch_operation self remote w server_ids config)
        \/ run = snd (terminate_operation self remote w server_ids) ->
        Forall (progress_inv n) (progress_states (fst run))
        /\ completed (snd run) = n
        /\ (successful (snd run) + failed (snd run))%Z = n
        /\ (forall p, In p (progress_states (fst run)) ->
              completed p = (successful p + failed p)%Z
              /\ (completed p <= total_servers p)%Z)).
Proof.
  intros n. split; [|split].
  - unfold progress_inv, n. simpl. repeat split; lia.
  - intros op p c Hp. destruct (aggregate_counters self op p c) as (_ & Hc & Hsf & _). lia.
  - intros run Hrun.
    destruct (operations_are_bulk self remote w server_ids config run Hrun)
      as (op & outcome & -> & Hlen).
    destruct (bulk_operation_log self op server_ids outcome Hlen)
      as (steps & action & Hlog & Hsteps & Hinv & Hdone & _).
    rewrite Hlog, progress_states_log.
    assert (Hfinal : progress_inv n (snd (bulk_operation self op server_ids outcome))).
    { apply Forall_cons in Hinv. destruct Hinv as [_ Hinv].
      apply Forall_app in Hinv. destruct Hinv as [_ Hinv].
      now apply Forall_inv in Hinv. }
    split; [exact Hinv|]. split; [exact Hdone|]. split.
    + destruct Hfinal as (_ & Hsf & _). fold n in Hdone. lia.
    + intros p Hp. apply list_elem_of_In in Hp.
      pose proof (proj1 (Forall_forall _ _) Hinv p Hp) as (A & B & C & D & E & F).
      split; assumption.
Qed.

Lemma bulk_progress_invariant_witness :
  completed
    (aggregate bare_coordinator "launch_test" (new_progress 1)
               (Failed_with "s-1" "throttled"))
  = (successful
       (aggregate bare_coordinator "launch_test" (new_progress 1)
                  (Failed_with "s-1" "throttled"))
     + failed
         (aggregate bare_coordinator "launch_test" (new_progress 1)
                    (Failed_with "s-1" "throttled")))%Z
  /\ completed (snd (snd (launch_operation bare_coordinator obliging_remote
                            O ["s-1"] []))) = 1%Z
  /\ (completed (new_progress 1) <= total_servers (new_progress 1))%Z.
Proof.
  split; [|split].
  - apply (proj1 (proj2 (bulk_progress_invariant bare_coordinator obliging_remote
                           O ["s-1"] []))).
    reflexivity.
  - exact (proj1 (proj2 (proj2 (proj2 (bulk_progress_invariant
              bare_coordinator obliging_remote O ["s-1"] [] )) _
              (or_introl eq_refl)))).
  - refine (proj2 (proj2 (proj2 (proj2 (proj2 (proj2 (bulk_progress_invariant
              bare_coordinator obliging_remote O ["s-1"] [])) _
              (or_introl eq_refl)))) (new_progress 1) _)).
    simpl. left. reflexivity.
Defined.

(** C2, as stated, fails: launching tests for two servers aggregates two
    completions, but the progress sink is called once, with the final
    snapshot, and never sees the state after the first completion. *)
Lemma sink_not_called_per_completion :
  length (states_after_each_completion (fst (snd two_server_launch))) = 2%nat
  /\ length (sink_calls (fst (snd two_server_launch))) = 1%nat
  /\ sink_calls (fst (snd two_server_launch))
     <> states_after_each_completion (fst (snd two_server_launch))
  /\ Forall (fun snapshot => completed snapshot = 2%Z)
            (sink_calls (fst (snd two_server_launch))).
Proof.
  split; [vm_compute; reflexivity|].
  split; [vm_compute; reflexivity|].
  split.
  - intros H. apply (f_equal (@length _)) in H. vm_compute in H. discriminate.
  - vm_compute. repeat constructor.
Qed.

(** C2, amended.  During a launch or a terminate operation over [N]
    server ids the coordinator performs [N] aggregation steps, each of
    which appends one result and increments [completed] and one of
    [successful] and [failed]; the progress sink is called exactly once,
    after the last aggregation step, with the final progress object, in
    which [completed == N] and which holds [N] results. *)
Theorem sink_called_once_after_aggregation {W} (self : Coordinator)
    (remote : Remote W) (w : W) (server_ids : list string)
    (config : list (string * pyval)) :
  forall run,
    run = snd (launch_operation self remote w server_ids config)
    \/ run = snd (terminate_operation self remote w server_ids) ->
    exists op cs steps action,
      length cs = length server_ids
      /\ snd run = fold_left (aggregate self op) cs
                             (new_progress (Z.of_nat (length server_ids)))
      /\ (forall p c,
            completed (aggregate self op p c) = (completed p + 1)%Z
            /\ (successful (aggregate self op p c) + failed (aggregate self op p c)
                = successful p + failed p + 1)%Z
            /\ length (results (aggregate self op p c)) = S (length (results p)))
      /\ fst run = Created (new_progress (Z.of_nat (length server_ids)))
                     :: map Aggregated steps
                     ++ [SinkCall (snd run); Scheduled action]
      /\ length steps = length server_ids
      /\ sink_calls (fst run) = [snd run]
      /\ completed (snd run) = Z.of_nat (length server_ids)
      /\ length (results (snd run)) = length server_ids.
Proof.
  intros run Hrun.
  destruct (operations_are_bulk self remote w server_ids config run Hrun)
    as (op & outcome & -> & Hlen).
  destruct (bulk_operation_log self op server_ids outcome Hlen)
    as (steps & action & Hlog & Hsteps & Hinv & Hdone & Hfold).
  exists op, (completions self server_ids outcome), steps, action.
  split; [exact Hlen|]. split; [exact Hfold|]. split.
  { intros p c. destruct (aggregate_counters self op p c) as (_ & A & B & _ & _ & C).
    auto. }
  split; [exact Hlog|]. split; [exact Hsteps|]. split.
  { rewrite Hlog at 1. apply sink_calls_log. }
  split; [exact Hdone|].
  apply Forall_cons in Hinv. destruct Hinv as [_ Hinv].
  apply Forall_app in Hinv. destruct Hinv as [_ Hinv].
  apply Forall_inv in Hinv. destruct Hinv as (_ & _ & Hres & _). lia.
Qed.

Lemma sink_called_once_after_aggregation_witness :
  exists op cs steps action,
    length cs = 2%nat
    /\ snd (snd two_server_launch)
       = fold_left (aggregate bare_coordinator op) cs (new_progress 2)
    /\ (forall p c,
          completed (aggregate bare_coordinator op p c) = (completed p + 1)%Z
          /\ (successful (aggregate bare_coordinator op p c)
              + failed (aggregate bare_coordinator op p c)
              = successful p + failed p + 1)%Z
          /\ length (results (aggregate bare_coordinator op p c))
             = S (length (results p)))
    /\ fst (snd two_server_launch)
       = Created (new_progress 2) :: map Aggregated steps
           ++ [SinkCall (snd (snd two_server_launch)); Scheduled action]
    /\ length steps = 2%nat
    /\ sink_calls (fst (snd two_server_launch)) = [snd (snd two_server_launch)]
    /\ completed (snd (snd two_server_launch)) = 2%Z
    /\ length (results (snd (snd two_server_launch))) = 2%nat.
Proof.
  apply (sink_called_once_after_aggregation bare_coordinator obliging_remote
           O ["s-1"; "s-2"] [] (snd two_server_launch)).
  left. reflexivity.
Defined.

(* ===================================================================== *)
(** * Properties of the concurrent executors *)
(* ===================================================================== *)

Section Executors.

Context {T R : Type}.
Variable func : T -> result (cell R).
Variable items : list T.

Lemma sync_collect_length (rs : list (cell R)) (index : nat) :
  length (sync_collect func items rs index) = length rs.
Proof.
  unfold sync_collect. destruct (items !! index) as [item|]; [|reflexivity].
  destruct (func item); apply length_insert.
Qed.

Lemma mark_first_none_length (e : exn) (rs : list (cell R)) :
  length (mark_first_none e rs) = length rs.
Proof.
  induction rs as [|c rs IH]; [reflexivity|].
  destruct c; simpl; congruence.
Qed.

Lemma async_collect_length (rs : list (cell R)) (index : nat) :
  length (async_collect func items rs index) = length rs.
Proof.
  unfold async_collect. destruct (items !! index) as [item|]; [|reflexivity].
  destruct (func item); [apply length_insert|apply mark_first_none_length].
Qed.

(** One collected future writes the outcome of its own unit into its
    own slot and leaves every other slot alone. *)
Lemma sync_collect_lookup (rs : list (cell R)) (index i : nat) :
  length rs = length items ->
  sync_collect func items rs index !! i
  = if decide (i = index) then unit_outcome func <$> items !! i else rs !! i.
Proof.
  intros Hlen. unfold sync_collect.
  destruct (decide (i = index)) as [->|Hne].
  - destruct (items !! index) as [item|] eqn:Hitem; simpl.
    + assert (index < length rs)%nat.
      { rewrite Hlen. eapply lookup_lt_Some; eauto. }
      unfold unit_outcome.
      destruct (func item); now rewrite list_lookup_insert_eq.
    + apply lookup_ge_None. rewrite Hlen. now apply lookup_ge_None.
  - destruct (items !! index) as [item|]; [|reflexivity].
    destruct (func item); now rewrite list_lookup_insert_ne.
Qed.

Lemma sync_fold_lookup (schedule : list nat) :
  forall (rs : list (cell R)) (i : nat),
    length rs = length items ->
    fold_left (sync_collect func items) schedule rs !! i
    = if decide (i ∈ schedule) then unit_outcome func <$> items !! i else rs !! i.
Proof.
  induction schedule as [|index rest IH]; intros rs i Hlen; simpl.
  - destruct (decide (i ∈ [])) as [Hin|_]; [|reflexivity].
    now apply elem_of_nil in Hin.
  - rewrite IH by (now rewrite sync_collect_length).
    rewrite sync_collect_lookup by assumption.
    destruct (decide (i ∈ rest)) as [Hin|Hnin].
    + rewrite decide_True by (now right). reflexivity.
    + destruct (decide (i = index)) as [->|Hne].
      * rewrite decide_True by (now left). reflexivity.
      * rewrite decide_False; [reflexivity|].
        intros Hin. apply elem_of_cons in Hin. tauto.
Qed.

(** The thread-pool executor is right for every order of completion:
    once every future has completed, slot [i] holds the outcome of the
    unit for input [i]. *)
Lemma run_concurrent_sync_correct (schedule : list nat) :
  (forall i, (i < length items)%nat -> i ∈ schedule) ->
  run_concurrent_sync func items schedule = map (unit_outcome func) items.
Proof.
  intros Hall. apply list_eq. intros i.
  unfold run_concurrent_sync.
  rewrite sync_fold_lookup by apply length_replicate.
  rewrite list_lookup_fmap.
  destruct (decide (i ∈ schedule)) as [_|Hnin]; [reflexivity|].
  assert (Hge : (length items <= i)%nat).
  { destruct (Nat.le_gt_cases (length items) i) as [H|H]; [exact H|].
    exfalso. apply Hnin, Hall, H. }
  rewrite (proj2 (lookup_ge_None items i) Hge). simpl.
  apply lookup_ge_None. now rewrite length_replicate.
Qed.

(** Both executors return as many outputs as there are inputs. *)
Lemma executors_length (schedule : list nat) :
  length (run_concurrent_sync func items schedule) = length items
  /\ length (run_concurrent_with_rate_limit func items schedule) = length items.
Proof.
  unfold run_concurrent_sync, run_concurrent_with_rate_limit.
  assert (H : forall rs,
             length (fold_left (sync_collect func items) schedule rs) = length rs
             /\ length (fold_left (async_collect func items) schedule rs) = length rs).
  { induction schedule as [|index rest IH]; intros rs; simpl; [auto|].
    destruct (IH (sync_collect func items rs index)) as [-> _].
    destruct (IH (async_collect func items rs index)) as [_ ->].
    now rewrite sync_collect_length, async_collect_length. }
  destruct (H (replicate (length items) CNone)) as [-> ->].
  now rewrite length_replicate.
Qed.

End Executors.

(** C1 on the code.  [run_concurrent_with_rate_limit] on the inputs
    [[2; 1]], where the unit for input [1] raises and completes before
    the unit for input [2]: slot 1 holds [None] instead of the exception
    of its unit, so the output is not the list of unit outcomes.  The
    thread-pool executor returns that list under the same schedule. *)
Theorem async_executor_misplaces_failure :
  run_concurrent_with_rate_limit flaky [2; 1]%nat [1; 0]%nat
  = [CVal 20%nat; CNone]
  /\ map (unit_outcome flaky) [2; 1]%nat = [CVal 20%nat; CExc (Exception "boom")]
  /\ run_concurrent_with_rate_limit flaky [2; 1]%nat [1; 0]%nat
     <> map (unit_outcome flaky) [2; 1]%nat
  /\ run_concurrent_sync flaky [2; 1]%nat [1; 0]%nat
     = map (unit_outcome flaky) [2; 1]%nat.
Proof.
  split; [reflexivity|]. split; [reflexivity|]. split; [|reflexivity].
  vm_compute. discriminate.
Qed.

(* ===================================================================== *)
(** * Properties of the status reconciliation *)
(* ===================================================================== *)

(** C7.  The replication status of a record's replication data follows
    the priority order of the specification: an explicit
    [dataReplicationState] of the fixed table is mapped through it;
    otherwise a lag duration that is present and is not ["P0D"] gives
    [REPLICATING]; otherwise a last-snapshot timestamp gives
    [REPLICATED]; otherwise the status is [UNKNOWN].  The table maps
    [INITIAL_SYNC_COMPLETE] to [REPLICATED]; replication data with
    [lagDuration] ["P0D"] and nothing else resolves to [UNKNOWN]. *)
Theorem replication_status_priority (d : list (string * pyval)) :
  _parse_replication_status (PDict d) = replication_spec d
  /\ table_lookup replication_table "STOPPED" = Some STOPPED
  /\ table_lookup replication_table "FAILED" = Some FAILED
  /\ table_lookup replication_table "INITIAL_SYNC" = Some INITIAL_SYNC
  /\ table_lookup replication_table "INITIAL_SYNC_COMPLETE" = Some REPLICATED
  /\ table_lookup replication_table "BACKLOG" = Some BACKLOG
  /\ table_lookup replication_table "CONTINUOUS" = Some CONTINUOUS
  /\ _parse_replication_status (PDict [("lagDuration", PStr "P0D")]) = UNKNOWN
  /\ _parse_replication_status
       (PDict [("dataReplicationState", PStr "BACKLOG");
               ("lagDuration", PStr "PT5M")]) = BACKLOG.
Proof.
  split; [|repeat split].
  unfold _parse_replication_status, replication_spec, explicit_state,
    nonzero_lag, has_snapshot, get, get_or.
  destruct d as [|kv d']; [reflexivity|].
  set (d := kv :: d'). cbn [truthy negb].
  destruct (dict_get d "dataReplicationState") as [v|].
  - destruct v as [ |b|z|s|l|m]; cbn [eq_str];
      try (destruct (dict_get d "lagDuration");
           destruct (dict_get d "lastSnapshotDateTime"); reflexivity).
    cbn [table_lookup replication_table].
    repeat (match goal with
            | |- context [String.eqb s ?k] => destruct (String.eqb s k); [reflexivity|]
            end).
    destruct (dict_get d "lagDuration");
      destruct (dict_get d "lastSnapshotDateTime"); reflexivity.
  - cbn [eq_str String.eqb Ascii.eqb Bool.eqb].
    destruct (dict_get d "lagDuration");
      destruct (dict_get d "lastSnapshotDateTime"); reflexivity.
Qed.

Lemma substring_whole (s : string) :
  forall n, (String.length s <= n)%nat -> substring 0 n s = s.
Proof.
  induction s as [|c s IH]; intros n Hn.
  - destruct n; reflexivity.
  - destruct n as [|n]; simpl in Hn; [lia|].
    simpl. rewrite IH by lia. reflexivity.
Qed.

(** The guarded slice of the fallback is the plain slice. *)
Lemma guarded_prefix (s : string) :
  (if (8 <=? String.length s)%nat then prefix 8 s else s) = prefix 8 s.
Proof.
  destruct (Nat.leb_spec 8 (String.length s)) as [_|Hlt]; [reflexivity|].
  unfold prefix. now rewrite substring_whole by lia.
Qed.

(** On entries with string keys the scan of list-shaped tags returns the
    value of the first entry named "Name" up to case. *)
Lemma find_name_tag_spec (ts : list pyval) :
  forallb string_keyed ts = true ->
  find_name_tag ts
  = Ok match List.find is_name_tag ts with
       | Some (PDict t) => Some (get_or t "value" (PStr "Unknown"))
       | _ => None
       end.
Proof.
  induction ts as [|tag rest IH]; intros Hkeys; [reflexivity|].
  cbn [forallb] in Hkeys. apply andb_prop in Hkeys. destruct Hkeys as [Hk Hrest].
  destruct tag as [ |b|z|s|l|t]; cbn [find_name_tag List.find is_name_tag];
    try (now apply IH).
  cbn [string_keyed] in Hk.
  destruct (get_or t "key" (PStr "")) as [ |b|z|k|l|m]; try discriminate.
  cbn [py_lower Py.bind].
  destruct (String.eqb (lower k) "name"); [reflexivity|now apply IH].
Qed.

(** The hostname rule of the code is the hostname hint of the
    specification. *)
Lemma hostname_rule_spec (server_data : list (string * pyval)) :
  match dict_get server_data "isArchived" with
  | Some (PBool false) =>
      match get_or server_data "sourceProperties" (PDict []) with
      | PDict source_props =>
          match get_or source_props "identificationHints" (PDict []) with
          | PDict identification_hints =>
              if truthy (get identification_hints "hostname")
              then Some (get identification_hints "hostname")
              else None
          | _ => None
          end
      | _ => None
      end
  | _ => None
  end = hostname_hint server_data.
Proof.
  unfold hostname_hint, get, get_or. cbn [path].
  destruct (dict_get server_data "isArchived") as [[ |[|]| | | | ]|]; try reflexivity.
  destruct (dict_get server_data "sourceProperties") as [[ |b|z|s|l|sp]|];
    try reflexivity.
  destruct (dict_get sp "identificationHints") as [[ |b|z|s|l|ih]|];
    try reflexivity.
  destruct (dict_get ih "hostname") as [h|]; reflexivity.
Qed.

(** C6.  The name of a record is resolved by first-match-wins
    precedence: the tag named "Name" (exact key in a map of tags, key
    compared up to case in a list of key/value entries), then a
    non-empty description, then the hostname hint of a record that is
    not archived, then ["Server-"] followed by the first 8 characters of
    the id, which is the whole id when it is shorter.  A record whose
    tags are [[{key: "Name", value: "db01"}]] is named ["db01"]. *)
Theorem name_resolution_precedence (rt : Runtime)
    (server_data : list (string * pyval)) (id : string) :
  (dict_get server_data "sourceServerID" = Some (PStr id) ->
   tags_string_keyed server_data = true ->
   _extract_server_name rt server_data = Ok (name_spec id server_data))
  /\ ((String.length id < 8)%nat -> prefix 8 id = id)
  /\ (dict_get server_data "tags"
      = Some (PList [PDict [("key", PStr "Name"); ("value", PStr "db01")]]) ->
      _extract_server_name rt server_data = Ok (PStr "db01")).
Proof.
  split; [|split].
  - intros Hid Hkeys.
    unfold _extract_server_name, name_spec, name_tag, tags_string_keyed in *.
    cbn [first_match].
    assert (Htags :
      match get_or server_data "tags" (PDict []) with
      | PDict t => Ok (dict_get t "Name")
      | PList ts => find_name_tag ts
      | _ => Ok None
      end
      = Ok match get_or server_data "tags" (PDict []) with
           | PDict t => dict_get t "Name"
           | PList ts =>
               match List.find is_name_tag ts with
               | Some (PDict t) => Some (get_or t "value" (PStr "Unknown"))
               | _ => None
               end
           | _ => None
           end).
    { destruct (get_or server_data "tags" (PDict [])); try reflexivity.
      now apply find_name_tag_spec. }
    rewrite Htags. cbn [Py.bind].
    destruct (match get_or server_data "tags" (PDict []) with
              | PDict t => dict_get t "Name"
              | PList ts => _
              | _ => None
              end) as [v|]; [reflexivity|].
    rewrite hostname_rule_spec.
    unfold description_hint, get, get_or. rewrite Hid.
    destruct (dict_get server_data "description") as [v|].
    + destruct (truthy v); [reflexivity|].
      destruct (hostname_hint server_data); [reflexivity|].
      now rewrite guarded_prefix.
    + cbn [truthy].
      destruct (hostname_hint server_data); [reflexivity|].
      now rewrite guarded_prefix.
  - intros Hshort. unfold prefix. apply substring_whole. lia.
  - intros Htags. unfold _extract_server_name, get_or. rewrite Htags. reflexivity.
Qed.

Lemma name_resolution_precedence_witness :
  _extract_server_name plain_runtime db01_record
  = Ok (name_spec "s-1234567890abcdef" db01_record)
  /\ prefix 8 "s-12" = "s-12"
  /\ _extract_server_name plain_runtime db01_record = Ok (PStr "db01").
Proof.
  split; [|split].
  - apply (proj1 (name_resolution_precedence plain_runtime db01_record
                    "s-1234567890abcdef")); reflexivity.
  - apply (proj1 (proj2 (name_resolution_precedence plain_runtime db01_record
                           "s-12"))). simpl. lia.
  - apply (proj2 (proj2 (name_resolution_precedence plain_runtime db01_record
                           "s-1234567890abcdef"))). reflexivity.
Defined.

(** The scan returns at the first entry named "Name" up to case:
    ["Unknown"] when that entry has no value, whatever follows it. *)
Lemma find_name_tag_first_valueless (pre post : list pyval)
    (tag : list (string * pyval)) :
  forallb string_keyed pre = true ->
  forallb (fun t => negb (is_name_tag t)) pre = true ->
  is_name_tag (PDict tag) = true ->
  dict_get tag "value" = None ->
  find_name_tag (pre ++ PDict tag :: post) = Ok (Some (PStr "Unknown")).
Proof.
  intros Hkeys Hnone Htag Hvalue.
  induction pre as [|t pre IH]; cbn [app find_name_tag].
  - cbn [is_name_tag] in Htag.
    destruct (get_or tag "key" (PStr "")) as [ |b|z|k|l|m]; try discriminate.
    cbn [py_lower Py.bind]. rewrite Htag. unfold get_or. now rewrite Hvalue.
  - cbn [forallb] in Hkeys, Hnone.
    apply andb_prop in Hkeys. destruct Hkeys as [Hk Hkeys].
    apply andb_prop in Hnone. destruct Hnone as [Hn Hnone].
    specialize (IH Hkeys Hnone).
    destruct t as [ |b|z|s|l|d]; try exact IH.
    cbn [string_keyed] in Hk. cbn [is_name_tag] in Hn.
    destruct (get_or d "key" (PStr "")) as [ |b|z|k|l|m]; try discriminate.
    cbn [py_lower Py.bind].
    destruct (String.eqb (lower k) "name"); [discriminate|exact IH].
Qed.

(** C10, as stated, fails: the tags of [two_name_tags_record] contain an
    entry whose key is "name" up to case and which has no value, yet the
    record is named ["db01"], after the earlier entry, not ["Unknown"]. *)
Lemma later_valueless_name_tag_is_not_used :
  dict_get two_name_tags_record "tags"
  = Some (PList [PDict [("key", PStr "Name"); ("value", PStr "db01")];
                 PDict [("key", PStr "name")]])
  /\ is_name_tag (PDict [("key", PStr "name")]) = true
  /\ dict_get [("key", PStr "name")] "value" = None
  /\ _extract_server_name plain_runtime two_name_tags_record = Ok (PStr "db01")
  /\ _extract_server_name plain_runtime two_name_tags_record <> Ok (PStr "Unknown").
Proof.
  repeat split. vm_compute. discriminate.
Qed.

(** C10, amended.  When the tags of a record arrive as a list in which
    the first entry named "Name" up to case has no ["value"] field, the
    entries before it being no maps or maps whose key is absent or a
    string, name resolution returns ["Unknown"]; it does not fall
    through to the description, the hostname or the id. *)
Theorem first_valueless_name_tag_gives_unknown (rt : Runtime)
    (server_data : list (string * pyval)) (pre post : list pyval)
    (tag : list (string * pyval)) :
  dict_get server_data "tags" = Some (PList (pre ++ PDict tag :: post)) ->
  forallb string_keyed pre = true ->
  forallb (fun t => negb (is_name_tag t)) pre = true ->
  is_name_tag (PDict tag) = true ->
  dict_get tag "value" = None ->
  _extract_server_name rt server_data = Ok (PStr "Unknown").
Proof.
  intros Htags Hkeys Hnone Htag Hvalue.
  unfold _extract_server_name, get_or. rewrite Htags.
  now rewrite (find_name_tag_first_valueless pre post tag).
Qed.

Lemma first_valueless_name_tag_gives_unknown_witness :
  _extract_server_name plain_runtime valueless_name_record = Ok (PStr "Unknown")
  /\ description_hint valueless_name_record = Some (PStr "database server")
  /\ hostname_hint valueless_name_record = Some (PStr "db01.lan").
Proof.
  split; [|split; reflexivity].
  apply (first_valueless_name_tag_gives_unknown plain_runtime valueless_name_record
           [PDict [("key", PStr "Env"); ("value", PStr "prod")]] []
           [("key", PStr "NAME")]); reflexivity.
Defined.

(* ===================================================================== *)
(** * Properties of the parsing of records *)
(* ===================================================================== *)

Lemma bind_Ok_inv {A B} (m : result A) (k : A -> result B) (b : B) :
  Py.bind m k = Ok b -> exists a, m = Ok a /\ k a = Ok b.
Proof. destruct m as [a|e]; simpl; [eauto|discriminate]. Qed.

Lemma parse_missing_id (client : MGNClient) (rt : Runtime)
    (server_data : list (string * pyval)) :
  lacks_id server_data = true ->
  _parse_source_server client rt server_data
  = Raise (ValueError "Missing sourceServerID").
Proof.
  unfold lacks_id, _parse_source_server. intros ->. reflexivity.
Qed.

(** A record that parses carries the non-empty id of its raw record. *)
Lemma parse_ok_id (client : MGNClient) (rt : Runtime)
    (server_data : list (string * pyval)) (s : SourceServer) :
  _parse_source_server client rt server_data = Ok s ->
  source_server_id s = get_or server_data "sourceServerID" (PStr "")
  /\ truthy (source_server_id s) = true.
Proof.
  unfold _parse_source_server.
  destruct (truthy (get_or server_data "sourceServerID" (PStr ""))) eqn:Hid;
    cbn [negb]; [|discriminate].
  intros H.
  repeat (apply bind_Ok_inv in H; destruct H as (? & _ & H)).
  destruct (find_test_instance server_data) as [i st].
  apply bind_Ok_inv in H. destruct H as (? & _ & H).
  injection H as <-. simpl. auto.
Qed.

Lemma parse_batch_acc (client : MGNClient) (rt : Runtime) (items : list pyval) :
  forall acc,
    parse_batch client rt items acc = acc ++ omap (parsed client rt) items.
Proof.
  induction items as [|item rest IH]; intros acc; cbn [parse_batch omap list_omap].
  - now rewrite app_nil_r.
  - destruct item as [ |b|z|s|l|d]; cbn [parsed]; try apply IH.
    destruct (_parse_source_server client rt d) as [srv|e]; [|apply IH].
    rewrite IH. now rewrite <- app_assoc.
Qed.

Lemma parsed_has_id (client : MGNClient) (rt : Runtime) (items : list pyval) :
  Forall (fun s => truthy (source_server_id s) = true)
         (omap (parsed client rt) items).
Proof.
  induction items as [|item rest IH]; cbn [omap list_omap]; [constructor|].
  destruct item as [ |b|z|s|l|d]; cbn [parsed]; try exact IH.
  destruct (_parse_source_server client rt d) as [srv|e] eqn:Hp; [|exact IH].
  constructor; [|exact IH]. now apply parse_ok_id in Hp.
Qed.

(** C8.  In a batch of raw records, a record that lacks a non-empty
    [sourceServerID] is a parse failure of that record only: parsing it
    raises, the listing skips it and returns normally, the returned list
    holds exactly what the other records parse to, as if the record had
    not been in the batch, and every returned record has a non-empty
    id.  This holds for a response that is a list and for a response
    that holds the list under ["items"]. *)
Theorem missing_id_skips_only_that_record (client : MGNClient) (rt : Runtime)
    (pre post : list pyval) (bad : list (string * pyval)) :
  lacks_id bad = true ->
  _parse_source_server client rt bad = Raise (ValueError "Missing sourceServerID")
  /\ get_source_servers client rt (Ok (PList (pre ++ PDict bad :: post)))
     = Ok (omap (parsed client rt) pre ++ omap (parsed client rt) post)
  /\ get_source_servers client rt
       (Ok (PDict [("items", PList (pre ++ PDict bad :: post))]))
     = Ok (omap (parsed client rt) pre ++ omap (parsed client rt) post)
  /\ get_source_servers client rt (Ok (PList (pre ++ PDict bad :: post)))
     = get_source_servers client rt (Ok (PList (pre ++ post)))
  /\ Forall (fun s => truthy (source_server_id s) = true)
            (omap (parsed client rt) pre ++ omap (parsed client rt) post).
Proof.
  intros Hbad.
  pose proof (parse_missing_id client rt bad Hbad) as Hraise.
  assert (Hskip : omap (parsed client rt) (pre ++ PDict bad :: post)
                  = omap (parsed client rt) pre ++ omap (parsed client rt) post).
  { rewrite omap_app. cbn [omap list_omap parsed]. now rewrite Hraise. }
  split; [exact Hraise|].
  split; [|split; [|split]].
  - cbn [get_source_servers response_items Py.bind].
    now rewrite parse_batch_acc, Hskip.
  - cbn [get_source_servers response_items get_or dict_get String.eqb Ascii.eqb
           Bool.eqb Py.bind].
    now rewrite parse_batch_acc, Hskip.
  - cbn [get_source_servers response_items Py.bind].
    now rewrite !parse_batch_acc, Hskip, omap_app.
  - apply Forall_app. split; apply parsed_has_id.
Qed.

Lemma missing_id_skips_only_that_record_witness :
  _parse_source_server (ec2_says "running") plain_runtime nameless_record
  = Raise (ValueError "Missing sourceServerID")
  /\ get_source_servers (ec2_says "running") plain_runtime
       (Ok (PList ([PDict db01_record] ++ PDict nameless_record
                     :: [PDict launched_record])))
     = Ok (omap (parsed (ec2_says "running") plain_runtime) [PDict db01_record]
           ++ omap (parsed (ec2_says "running") plain_runtime)
                   [PDict launched_record])
  /\ length (omap (parsed (ec2_says "running") plain_runtime) [PDict db01_record]
             ++ omap (parsed (ec2_says "running") plain_runtime)
                     [PDict launched_record]) = 2%nat.
Proof.
  split; [|split; [|reflexivity]].
  - apply (proj1 (missing_id_skips_only_that_record (ec2_says "running")
                    plain_runtime [PDict db01_record] [PDict launched_record]
                    nameless_record eq_refl)).
  - apply (proj1 (proj2 (missing_id_skips_only_that_record (ec2_says "running")
                    plain_runtime [PDict db01_record] [PDict launched_record]
                    nameless_record eq_refl))).
Defined.

(** The client enters the parsed record through its region and through
    the state that it resolves for the test instance, and nowhere else:
    the record parsed with one client is the record parsed with any
    other, re-stamped. *)
Lemma parse_factor (c c' : MGNClient) (rt : Runtime)
    (server_data : list (string * pyval)) :
  _parse_source_server c rt server_data
  = result_map (with_client c server_data) (_parse_source_server c' rt server_data).
Proof.
  unfold _parse_source_server.
  destruct (negb (truthy (get_or server_data "sourceServerID" (PStr ""))));
    [reflexivity|].
  repeat match goal with
         | |- context [Py.bind ?m _] =>
             destruct m; cbn [Py.bind result_map]; [|reflexivity]
         end.
  unfold with_client.
  destruct (find_test_instance server_data) as [i st].
  match goal with
  | |- context [Py.bind ?m _] =>
      destruct m; cbn [Py.bind result_map]; [|reflexivity]
  end.
  reflexivity.
Qed.

Lemma result_map_compose {A B C} (f : A -> B) (g : B -> C) (r : result A) :
  result_map g (result_map f r) = result_map (fun a => g (f a)) r.
Proof. destruct r; reflexivity. Qed.

Lemma result_map_ext {A B} (f g : A -> B) (r : result A) :
  (forall a, f a = g a) -> result_map f r = result_map g r.
Proof. intros H. destruct r; simpl; [now rewrite H|reflexivity]. Qed.

(** C9, as stated, fails: the same raw record, parsed while EC2 reports
    its launched instance as pending and parsed again once EC2 reports
    it as running, gives two records that differ in
    [test_instance_state]. *)
Lemma reconcile_depends_on_ec2_answer :
  config_region (ec2_says "pending") = config_region (ec2_says "running")
  /\ result_map test_instance_state
       (_parse_source_server (ec2_says "pending") plain_runtime launched_record)
     = Ok (PStr "pending")
  /\ result_map test_instance_state
       (_parse_source_server (ec2_says "running") plain_runtime launched_record)
     = Ok (PStr "running")
  /\ _parse_source_server (ec2_says "pending") plain_runtime launched_record
     <> _parse_source_server (ec2_says "running") plain_runtime launched_record.
Proof.
  split; [reflexivity|]. split; [reflexivity|]. split; [reflexivity|].
  intros H.
  apply (f_equal (result_map test_instance_state)) in H.
  vm_compute in H. discriminate.
Qed.

(** C9, amended.  Parsing is a function of the raw record, the region
    of the client and the answer of the EC2 lookup.  Two parses of the
    same record by clients of the same region both raise the same
    exception or give two records equal in every field other than
    [test_instance_state]; they are equal in that field too when the
    record does not need the lookup (it has no test instance id, or has
    a state for it), and when the lookup gives the same answer both
    times. *)
Theorem reconcile_pure_up_to_instance_state (c1 c2 : MGNClient) (rt : Runtime)
    (server_data : list (string * pyval)) :
  config_region c1 = config_region c2 ->
  result_map forget_state (_parse_source_server c1 rt server_data)
  = result_map forget_state (_parse_source_server c2 rt server_data)
  /\ (needs_lookup server_data = false ->
      _parse_source_server c1 rt server_data
      = _parse_source_server c2 rt server_data)
  /\ (ec2_lookup c1 (fst (find_test_instance server_data))
                 (snd (find_test_instance server_data))
      = ec2_lookup c2 (fst (find_test_instance server_data))
                   (snd (find_test_instance server_data)) ->
      _parse_source_server c1 rt server_data
      = _parse_source_server c2 rt server_data).
Proof.
  intros Hregion. split; [|split].
  - rewrite (parse_factor c1 c2), result_map_compose.
    rewrite <- (result_map_ext (fun a => forget_state (with_client c2 server_data a))).
    + rewrite <- result_map_compose. now rewrite <- (parse_factor c2 c2).
    + intros a. unfold forget_state, with_client. simpl. now rewrite Hregion.
  - intros Hneed. rewrite (parse_factor c1 c2).
    transitivity (result_map (with_client c2 server_data)
                             (_parse_source_server c2 rt server_data));
      [|symmetry; apply parse_factor].
    apply result_map_ext. intros a.
    unfold with_client, resolve_instance_state.
    unfold needs_lookup in Hneed. rewrite Hneed, Hregion. reflexivity.
  - intros Hsame. rewrite (parse_factor c1 c2).
    transitivity (result_map (with_client c2 server_data)
                             (_parse_source_server c2 rt server_data));
      [|symmetry; apply parse_factor].
    apply result_map_ext. intros a.
    unfold with_client, resolve_instance_state.
    rewrite Hsame, Hregion. reflexivity.
Qed.

Lemma reconcile_pure_up_to_instance_state_witness :
  result_map forget_state
    (_parse_source_server (ec2_says "pending") plain_runtime launched_record)
  = result_map forget_state
      (_parse_source_server (ec2_says "running") plain_runtime launched_record)
  /\ _parse_source_server (ec2_says "pending") plain_runtime db01_record
     = _parse_source_server (ec2_says "running") plain_runtime db01_record.
Proof.
  split.
  - apply (proj1 (reconcile_pure_up_to_instance_state (ec2_says "pending")
                    (ec2_says "running") plain_runtime launched_record eq_refl)).
  - apply (proj1 (proj2 (reconcile_pure_up_to_instance_state (ec2_says "pending")
                    (ec2_says "running") plain_runtime db01_record eq_refl))).
    reflexivity.
Defined.

(* ===================================================================== *)
(** * Properties of the rate limiter *)
(* ===================================================================== *)

Lemma Qltb_lt (a b : Q) : Qltb a b = true <-> (a < b)%Q.
Proof.
  unfold Qltb. rewrite negb_true_iff. split.
  - intros H. apply Qnot_le_lt. intros Hle.
    apply Qle_bool_iff in Hle. congruence.
  - intros H. destruct (Qle_bool b a) eqn:E; [|reflexivity].
    apply Qle_bool_iff in E. exfalso. now apply (Qlt_not_le a b).
Qed.

Lemma Qltb_ge (a b : Q) : Qltb a b = false <-> (b <= a)%Q.
Proof.
  unfold Qltb. rewrite negb_false_iff. apply Qle_bool_iff.
Qed.

Lemma live_calls_In (l : RateLimiter) (now t : Q) :
  In t (live_calls l now) <-> In t (calls l) /\ (now - t < time_window l)%Q.
Proof.
  unfold live_calls. rewrite filter_In. now rewrite Qltb_lt.
Qed.

Lemma live_calls_length (l : RateLimiter) (now : Q) :
  (length (live_calls l now) <= length (calls l))%nat.
Proof. apply List.filter_length_le. Qed.

(** The three ways a pass can end. *)
Lemma acquire_pass_cases (l : RateLimiter) (now now2 : Q) :
  ((Z.of_nat (length (live_calls l now)) < max_calls l)%Z
   /\ acquire_pass l now now2
      = Granted (set_calls (set_calls l (live_calls l now))
                           (live_calls l now ++ [now2])))
  \/ ((max_calls l <= Z.of_nat (length (live_calls l now)))%Z
      /\ exists oldest rest,
           live_calls l now = oldest :: rest
           /\ (0 < time_window l - (now - oldest))%Q
           /\ acquire_pass l now now2
              = Suspend (time_window l - (now - oldest))
                        (set_calls l (live_calls l now)))
  \/ ((max_calls l <= 0)%Z
      /\ live_calls l now = []
      /\ acquire_pass l now now2 = Crashed IndexError (set_calls l [])).
Proof.
  unfold acquire_pass.
  destruct (Z.leb_spec (max_calls l) (Z.of_nat (length (live_calls l now))))
    as [Hfull|Hroom].
  - right. destruct (live_calls l now) as [|oldest rest] eqn:Hkept.
    + right. simpl in Hfull. auto.
    + left. split; [exact Hfull|]. exists oldest, rest.
      assert (Hin : In oldest (live_calls l now)) by (rewrite Hkept; now left).
      apply live_calls_In in Hin. destruct Hin as [_ Hlive].
      assert (Hpos : (0 < time_window l - (now - oldest))%Q) by lra.
      split; [reflexivity|]. split; [exact Hpos|].
      apply Qltb_lt in Hpos. now rewrite Hpos.
  - left. split; [lia|reflexivity].
Qed.

(** After the sleep the oldest live call has left the window, so every
    pass that suspends shortens the list: with a positive [max_calls]
    and fuel beyond the number of live calls, [acquire] returns. *)
Lemma acquire_returns (c : Clock) :
  clock_ok c ->
  forall fuel now l,
    (1 <= max_calls l)%Z ->
    (length (live_calls l now) < fuel)%nat ->
    exists t kept,
      acquire c fuel now l = Some (Ok (t, set_calls l (kept ++ [t])))
      /\ (now <= t)%Q
      /\ (Z.of_nat (length kept) < max_calls l)%Z.
Proof.
  intros [Htick Hwake]. induction fuel as [|fuel IH]; intros now l Hmax Hfuel; [lia|].
  cbn [acquire].
  destruct (acquire_pass_cases l now (tick c now))
    as [[Hroom Hp] | [[Hfull (oldest & rest & Hkept & Hpos & Hp)] | (Hm & _)]];
    [| |lia].
  - rewrite Hp. exists (tick c now), (live_calls l now).
    split; [reflexivity|]. split; [apply Htick|exact Hroom].
  - rewrite Hp.
    set (d := (time_window l - (now - oldest))%Q) in *.
    set (l1 := set_calls l (live_calls l now)).
    assert (Hshort : (length (live_calls l1 (wake c now d)) < fuel)%nat).
    { unfold live_calls at 1. subst l1. cbn [calls time_window set_calls].
      rewrite Hkept. cbn [List.filter].
      assert (Hout : Qltb (wake c now d - oldest) (time_window l) = false).
      { apply Qltb_ge. pose proof (Hwake now d). subst d. lra. }
      rewrite Hout. rewrite Hkept in Hfuel. cbn [length] in Hfuel.
      pose proof (List.filter_length_le
                    (fun call_time => Qltb (wake c now d - call_time) (time_window l))
                    rest). lia. }
    destruct (IH (wake c now d) l1 Hmax Hshort) as (t & kept & Hrun & Ht & Hk).
    exists t, kept. split; [exact Hrun|]. split; [|exact Hk].
    pose proof (Hwake now d). lra.
Qed.

Lemma count_after_app (a : Q) (xs ys : list Q) :
  count_after a (xs ++ ys) = (count_after a xs + count_after a ys)%nat.
Proof. unfold count_after. now rewrite List.filter_app, length_app. Qed.

Lemma count_window_app (s w : Q) (xs ys : list Q) :
  count_window s w (xs ++ ys) = (count_window s w xs + count_window s w ys)%nat.
Proof. unfold count_window. now rewrite List.filter_app, length_app. Qed.

Lemma count_after_le_length (a : Q) (xs : list Q) :
  (count_after a xs <= length xs)%nat.
Proof. apply List.filter_length_le. Qed.

Lemma in_window_spec (s w x : Q) :
  in_window s w x = true <-> (s <= x /\ x < s + w)%Q.
Proof.
  unfold in_window. rewrite andb_true_iff, Qle_bool_iff, Qltb_lt. reflexivity.
Qed.

(** Dropping the calls that left the window at [now] does not change
    the number of calls later than any [a] at or after [now - w]. *)
Lemma count_after_live (now w a : Q) (xs : list Q) :
  (now - w <= a)%Q ->
  count_after a (List.filter (fun x => Qltb (now - x) w) xs) = count_after a xs.
Proof.
  intros Ha. unfold count_after.
  induction xs as [|x xs IH]; [reflexivity|]. cbn [List.filter].
  destruct (Qltb (now - x) w) eqn:Hlive.
  - cbn [List.filter]. destruct (Qltb a x); cbn [length]; now rewrite IH.
  - apply Qltb_ge in Hlive.
    assert (Hold : Qltb a x = false) by (apply Qltb_ge; lra).
    now rewrite Hold.
Qed.

(** Timestamps inside a window that ends after [a + w] are later than
    [a]. *)
Lemma count_window_le_count_after (s w a : Q) (xs : list Q) :
  (a < s)%Q -> (count_window s w xs <= count_after a xs)%nat.
Proof.
  intros Has. unfold count_window, count_after.
  induction xs as [|x xs IH]; [reflexivity|]. cbn [List.filter].
  destruct (in_window s w x) eqn:Hin.
  - apply in_window_spec in Hin.
    assert (Hlate : Qltb a x = true) by (apply Qltb_lt; lra).
    rewrite Hlate. cbn [length]. lia.
  - destruct (Qltb a x); cbn [length]; lia.
Qed.

Lemma StronglySorted_filter_Qle (f : Q -> bool) (xs : list Q) :
  StronglySorted Qle xs -> StronglySorted Qle (List.filter f xs).
Proof.
  induction 1 as [|x xs Hs IH Hx]; cbn [List.filter]; [constructor|].
  destruct (f x); [|exact IH].
  constructor; [exact IH|].
  rewrite List.Forall_forall in *. intros y Hy.
  apply filter_In in Hy. now apply Hx.
Qed.

Lemma StronglySorted_snoc_Qle (xs : list Q) (y : Q) :
  StronglySorted Qle xs -> List.Forall (fun x => (x <= y)%Q) xs ->
  StronglySorted Qle (xs ++ [y]).
Proof.
  induction 1 as [|x xs Hs IH Hx]; intros Hy; cbn [app].
  - repeat constructor.
  - pose proof (List.Forall_inv Hy) as Hxy.
    pose proof (List.Forall_inv_tail Hy) as Hys.
    constructor; [now apply IH|].
    apply List.Forall_app. split; [exact Hx|]. now repeat constructor.
Qed.

Lemma live_calls_sorted (l : RateLimiter) (now : Q) :
  StronglySorted Qle (calls l) -> StronglySorted Qle (live_calls l now).
Proof. apply StronglySorted_filter_Qle. Qed.

Lemma live_calls_bounded (l : RateLimiter) (now t t' : Q) :
  List.Forall (fun x => (x <= t)%Q) (calls l) -> (t <= t')%Q ->
  List.Forall (fun x => (x <= t')%Q) (live_calls l now).
Proof.
  intros Hall Ht. rewrite List.Forall_forall in *. intros x Hx.
  apply live_calls_In in Hx. destruct Hx as [Hx _].
  specialize (Hall x Hx). simpl in Hall. lra.
Qed.

(** A pass that neither grants nor changes the parameters keeps the
    invariant: it only drops calls that left the window. *)
Lemma lim_inv_drop (m : Z) (w t now : Q) (hist : list Q) (l : RateLimiter) :
  lim_inv m w t hist l -> (t <= now)%Q ->
  lim_inv m w now hist (set_calls l (live_calls l now)).
Proof.
  intros (Hm & Hw & Hsorted & Hpast & Hcount & Hpos & Hwin) Ht.
  unfold lim_inv. cbn [max_calls time_window calls set_calls].
  split; [exact Hm|]. split; [exact Hw|].
  split; [now apply live_calls_sorted|].
  split; [now apply (live_calls_bounded l now t)|].
  split; [|split; assumption].
  intros a Ha. unfold live_calls. rewrite Hw.
  rewrite count_after_live by exact Ha. apply Hcount. lra.
Qed.

Lemma lim_inv_grant (m : Z) (w t now now2 : Q) (hist : list Q) (l : RateLimiter) :
  lim_inv m w t hist l -> (t <= now)%Q -> (now <= now2)%Q ->
  (Z.of_nat (length (live_calls l now)) < max_calls l)%Z ->
  lim_inv m w now2 (hist ++ [now2]) (set_calls l (live_calls l now ++ [now2])).
Proof.
  intros (Hm & Hw & Hsorted & Hpast & Hcount & Hpos & Hwin) Ht Hnow Hroom.
  assert (Hkept : forall a, (now - w <= a)%Q ->
                    count_after a hist = count_after a (live_calls l now)).
  { intros a Ha. unfold live_calls. rewrite Hw.
    rewrite count_after_live by exact Ha. apply Hcount. lra. }
  unfold lim_inv. cbn [max_calls time_window calls set_calls].
  split; [exact Hm|]. split; [exact Hw|].
  assert (Hbound : List.Forall (fun x => (x <= now2)%Q) (live_calls l now)).
  { apply (live_calls_bounded l now t); [exact Hpast|lra]. }
  split; [apply StronglySorted_snoc_Qle; [now apply live_calls_sorted|exact Hbound]|].
  split.
  { apply List.Forall_app. split; [exact Hbound|].
    constructor; [apply Qle_refl|constructor]. }
  split.
  { intros a Ha. rewrite !count_after_app. f_equal. apply Hkept. lra. }
  split; [intros _; lia|].
  intros s. rewrite count_window_app.
  unfold count_window at 2. cbn [List.filter].
  destruct (in_window s w now2) eqn:Hin; cbn [length].
  - apply in_window_spec in Hin.
    pose proof (count_window_le_count_after s w (now2 - w) hist) as Hle.
    assert (Hlt : (now2 - w < s)%Q) by lra. specialize (Hle Hlt).
    rewrite (Hkept (now2 - w)%Q) in Hle by lra.
    pose proof (count_after_le_length (now2 - w)%Q (live_calls l now)). lia.
  - specialize (Hwin s). lia.
Qed.

(** Every state of the shared limiter satisfies the invariant. *)
Lemma lim_run_inv (m : Z) (w t : Q) (hist : list Q) (l : RateLimiter) :
  lim_run m w t hist l -> lim_inv m w t hist l.
Proof.
  induction 1 as [t
                 | t hist l now now2 l' Hrun IH Ht Hnow Hpass
                 | t hist l now now2 d l' Hrun IH Ht Hpass
                 | t hist l now now2 e l' Hrun IH Ht Hpass].
  - unfold lim_inv. cbn [new_limiter max_calls time_window calls].
    repeat split; try constructor; try (intros; contradiction || lia).
    intros s. cbn. lia.
  - destruct (acquire_pass_cases l now now2)
      as [[Hroom Hp] | [[_ (o & r & _ & _ & Hp)] | (_ & _ & Hp)]];
      rewrite Hp in Hpass; try discriminate.
    injection Hpass as <-.
    exact (lim_inv_grant m w t now now2 hist l IH Ht Hnow Hroom).
  - destruct (acquire_pass_cases l now now2)
      as [[Hroom Hp] | [[_ (o & r & _ & _ & Hp)] | (_ & _ & Hp)]];
      rewrite Hp in Hpass; try discriminate.
    injection Hpass as _ <-. now apply (lim_inv_drop m w t).
  - destruct (acquire_pass_cases l now now2)
      as [[Hroom Hp] | [[_ (o & r & _ & _ & Hp)] | (_ & Hkept & Hp)]];
      rewrite Hp in Hpass; try discriminate.
    injection Hpass as _ <-. rewrite <- Hkept. now apply (lim_inv_drop m w t).
Qed.

Lemma acquire_pass_room (l : RateLimiter) (now now2 : Q) :
  (Z.of_nat (length (live_calls l now)) < max_calls l)%Z ->
  acquire_pass l now now2 = Granted (set_calls l (live_calls l now ++ [now2])).
Proof.
  intros Hroom.
  destruct (acquire_pass_cases l now now2)
    as [[_ Hp] | [[Hfull _] | (Hm & Hkept & _)]].
  - exact Hp.
  - lia.
  - rewrite Hkept in Hroom. simpl in Hroom. lia.
Qed.

Lemma acquire_pass_full (l : RateLimiter) (now now2 oldest : Q) (rest : list Q) :
  (max_calls l <= Z.of_nat (length (live_calls l now)))%Z ->
  live_calls l now = oldest :: rest ->
  (0 < time_window l - (now - oldest))%Q
  /\ acquire_pass l now now2
     = Suspend (time_window l - (now - oldest)) (set_calls l (live_calls l now)).
Proof.
  intros Hfull Hkept.
  destruct (acquire_pass_cases l now now2)
    as [[Hroom _] | [[_ (o & r & Hk & Hpos & Hp)] | (_ & Hnil & _)]].
  - lia.
  - rewrite Hkept in Hk. injection Hk as <- <-. auto.
  - rewrite Hkept in Hnil. discriminate.
Qed.

Lemma acquire_pass_granted_inv (l l' : RateLimiter) (now now2 : Q) :
  acquire_pass l now now2 = Granted l' ->
  l' = set_calls l (live_calls l now ++ [now2])
  /\ (Z.of_nat (length (live_calls l now)) < max_calls l)%Z.
Proof.
  intros Hpass.
  destruct (acquire_pass_cases l now now2)
    as [[Hroom Hp] | [[_ (o & r & _ & _ & Hp)] | (_ & _ & Hp)]];
    rewrite Hp in Hpass; try discriminate.
  injection Hpass as <-. split; [reflexivity|exact Hroom].
Qed.

(** C5.  One pass of [acquire] first drops the recorded timestamps that
    are a window old or older, so every timestamp older than
    [now - window] goes.  With fewer than [max_calls] left it records
    the clock reading and returns at once.  Otherwise it sleeps for
    [window - (now - oldest)], which is positive, the oldest remaining
    timestamp being the head of the list and, in a limiter that has only
    been used through [acquire], its least element; after the sleep it
    starts over, and with a positive [max_calls] it returns after at
    most as many sleeps as there were recorded calls.  At every return
    no window that is [window] long holds more than [max_calls] of the
    recorded timestamps, and in a limiter shared by any number of
    callers no such window holds more than [max_calls] of all the
    timestamps ever recorded. *)
Theorem rate_limiter_acquire (l : RateLimiter) (now now2 : Q) :
  (forall t, In t (live_calls l now)
             <-> In t (calls l) /\ (now - t < time_window l)%Q)
  /\ (forall t, (t < now - time_window l)%Q -> ~ In t (live_calls l now))
  /\ ((Z.of_nat (length (live_calls l now)) < max_calls l)%Z ->
      acquire_pass l now now2 = Granted (set_calls l (live_calls l now ++ [now2]))
      /\ forall c fuel,
           acquire c (S fuel) now l
           = Some (Ok (tick c now,
                       set_calls l (live_calls l now ++ [tick c now]))))
  /\ (forall oldest rest,
        (max_calls l <= Z.of_nat (length (live_calls l now)))%Z ->
        live_calls l now = oldest :: rest ->
        (0 < time_window l - (now - oldest))%Q
        /\ acquire_pass l now now2
           = Suspend (time_window l - (now - oldest))
                     (set_calls l (live_calls l now))
        /\ forall c fuel,
             acquire c (S fuel) now l
             = acquire c fuel (wake c now (time_window l - (now - oldest)))
                       (set_calls l (live_calls l now)))
  /\ (forall c, clock_ok c -> (1 <= max_calls l)%Z ->
        exists t kept,
          acquire c (S (length (calls l))) now l
          = Some (Ok (t, set_calls l (kept ++ [t])))
          /\ (now <= t)%Q
          /\ (Z.of_nat (length (kept ++ [t])) <= max_calls l)%Z)
  /\ (forall l', acquire_pass l now now2 = Granted l' ->
        forall s,
          (Z.of_nat (count_window s (time_window l') (calls l')) <= max_calls l')%Z)
  /\ (forall m w t hist l',
        lim_run m w t hist l -> (t <= now)%Q -> (now <= now2)%Q ->
        acquire_pass l now now2 = Granted l' ->
        (forall s, (Z.of_nat (count_window s w (hist ++ [now2])) <= m)%Z)
        /\ lim_run m w now2 (hist ++ [now2]) l')
  /\ (forall m w t hist oldest rest,
        lim_run m w t hist l ->
        live_calls l now = oldest :: rest ->
        List.Forall (fun x => (oldest <= x)%Q) rest).
Proof.
  split; [intros t; apply live_calls_In|].
  split.
  { intros t Hold Hin. apply live_calls_In in Hin. destruct Hin as [_ Hlive]. lra. }
  split.
  { intros Hroom. split; [now apply acquire_pass_room|].
    intros c fuel. cbn [acquire]. now rewrite acquire_pass_room. }
  split.
  { intros oldest rest Hfull Hkept.
    destruct (acquire_pass_full l now now2 oldest rest Hfull Hkept) as [Hpos Hp].
    split; [exact Hpos|]. split; [exact Hp|].
    intros c fuel. cbn [acquire].
    destruct (acquire_pass_full l now (tick c now) oldest rest Hfull Hkept) as [_ ->].
    reflexivity. }
  split.
  { intros c Hc Hmax.
    destruct (acquire_returns c Hc (S (length (calls l))) now l Hmax)
      as (t & kept & Hrun & Ht & Hk).
    { pose proof (live_calls_length l now). lia. }
    exists t, kept. split; [exact Hrun|]. split; [exact Ht|].
    rewrite length_app. cbn [length]. lia. }
  split.
  { intros l' Hpass s.
    apply acquire_pass_granted_inv in Hpass. destruct Hpass as [-> Hroom].
    cbn [calls max_calls time_window set_calls].
    pose proof (List.filter_length_le (in_window s (time_window l))
                  (live_calls l now ++ [now2])) as Hle.
    unfold count_window. rewrite length_app in Hle. cbn [length] in Hle. lia. }
  split.
  { intros m w t hist l' Hrun Ht Hnow Hpass.
    pose proof (run_granted m w t hist l now now2 l' Hrun Ht Hnow Hpass) as Hrun'.
    split; [|exact Hrun'].
    apply lim_run_inv in Hrun'.
    destruct Hrun' as (_ & _ & _ & _ & _ & Hpos & Hwin).
    intros s. specialize (Hwin s).
    assert (1 <= m)%Z by (apply Hpos; now destruct hist). lia. }
  intros m w t hist oldest rest Hrun Hkept.
  apply lim_run_inv in Hrun. destruct Hrun as (_ & _ & Hsorted & _).
  apply (live_calls_sorted l now) in Hsorted. rewrite Hkept in Hsorted.
  now apply StronglySorted_inv in Hsorted.
Qed.

Lemma exact_clock_ok : clock_ok exact_clock.
Proof. split; intros; cbn [tick wake exact_clock]; lra. Qed.

Lemma rate_limiter_acquire_witness :
  acquire_pass (new_limiter 3 1) 0 0
  = Granted (set_calls (new_limiter 3 1) (live_calls (new_limiter 3 1) 0 ++ [0%Q]))
  /\ (0 < time_window full_limiter - (1 - (1 # 4)))%Q
  /\ acquire_pass full_limiter 1 1
     = Suspend (time_window full_limiter - (1 - (1 # 4)))
               (set_calls full_limiter (live_calls full_limiter 1))
  /\ (exists t kept,
        acquire exact_clock (S (length (calls full_limiter))) 1 full_limiter
        = Some (Ok (t, set_calls full_limiter (kept ++ [t])))
        /\ (1 <= t)%Q
        /\ (Z.of_nat (length (kept ++ [t])) <= max_calls full_limiter)%Z)
  /\ (forall s, (Z.of_nat (count_window s 1 ([] ++ [0%Q])) <= 3)%Z).
Proof.
  split; [|split; [|split; [|split]]].
  - apply (proj1 (proj2 (proj2 (rate_limiter_acquire (new_limiter 3 1) 0 0)))).
    vm_compute. reflexivity.
  - apply (proj1 (proj2 (proj2 (proj2 (rate_limiter_acquire full_limiter 1 1))))
             (1 # 4)%Q [(1 # 2)%Q; (3 # 4)%Q]).
    + vm_compute. discriminate.
    + reflexivity.
  - apply (proj1 (proj2 (proj2 (proj2 (rate_limiter_acquire full_limiter 1 1))))
             (1 # 4)%Q [(1 # 2)%Q; (3 # 4)%Q]).
    + vm_compute. discriminate.
    + reflexivity.
  - apply (proj1 (proj2 (proj2 (proj2 (proj2
             (rate_limiter_acquire full_limiter 1 1))))) exact_clock).
    + exact exact_clock_ok.
    + vm_compute. discriminate.
  - apply (proj1 (proj2 (proj2 (proj2 (proj2 (proj2 (proj2
             (rate_limiter_acquire (new_limiter 3 1) 0 0)))))))
             3%Z 1%Q 0%Q [] (set_calls (new_limiter 3 1) [0%Q])).
    + apply run_start.
    + apply Qle_refl.
    + apply Qle_refl.
    + reflexivity.
Defined.

(* ===================================================================== *)
(** * Further properties of the concurrent executors *)
(* ===================================================================== *)

Lemma run_concurrent_sync_correct_witness :
  run_concurrent_sync flaky [2; 1]%nat [1; 0]%nat
  = map (unit_outcome flaky) [2; 1]%nat.
Proof.
  apply (run_concurrent_sync_correct flaky [2; 1]%nat [1; 0]%nat).
  intros i Hi. cbn [length] in Hi.
  destruct i as [|[|i]]; [| |lia].
  - apply elem_of_cons. right. apply elem_of_cons. now left.
  - apply elem_of_cons. now left.
Defined.

Section MoreExecutors.

Context {T R : Type}.
Variable func : T -> result (cell R).
Variable items : list T.

Lemma mark_first_none_app (e : exn) (pre post : list (cell R)) :
  Forall (fun c => c <> CNone) pre ->
  mark_first_none e (pre ++ CNone :: post) = pre ++ CExc e :: post.
Proof.
  induction 1 as [|c pre Hc Hpre IH]; [reflexivity|].
  cbn [app mark_first_none]. destruct c; [contradiction| |]; now rewrite IH.
Qed.

(** As long as no unit raises, the async executor does what the
    thread-pool executor does. *)
Lemma async_collect_without_failure (rs : list (cell R)) (index : nat) :
  (forall item, item ∈ items -> exists v, func item = Ok v) ->
  async_collect func items rs index = sync_collect func items rs index.
Proof.
  intros Hok. unfold async_collect, sync_collect.
  destruct (items !! index) as [item|] eqn:Hitem; [|reflexivity].
  destruct (Hok item) as [v ->]; [|reflexivity].
  eapply list_elem_of_lookup_2; eauto.
Qed.

(** When no unit raises, the async executor returns the outcome of
    every unit in the slot of its input, in whatever order the units
    complete. *)
Lemma run_concurrent_with_rate_limit_without_failure (schedule : list nat) :
  (forall item, item ∈ items -> exists v, func item = Ok v) ->
  (forall i, (i < length items)%nat -> i ∈ schedule) ->
  run_concurrent_with_rate_limit func items schedule
  = map (unit_outcome func) items.
Proof.
  intros Hok Hall.
  assert (Hsame : forall rs,
             fold_left (async_collect func items) schedule rs
             = fold_left (sync_collect func items) schedule rs).
  { clear Hall. induction schedule as [|index rest IH]; intros rs; [reflexivity|].
    cbn [fold_left]. rewrite async_collect_without_failure by exact Hok.
    apply IH. }
  unfold run_concurrent_with_rate_limit. rewrite Hsame.
  apply list_eq. intros i.
  rewrite sync_fold_lookup by apply length_replicate.
  rewrite list_lookup_fmap.
  destruct (decide (i ∈ schedule)) as [_|Hnin]; [reflexivity|].
  assert (Hge : (length items <= i)%nat).
  { destruct (Nat.le_gt_cases (length items) i) as [H|H]; [exact H|].
    exfalso. apply Hnin, Hall, H. }
  rewrite (proj2 (lookup_ge_None items i) Hge). cbn [fmap option_fmap option_map].
  apply lookup_ge_None. now rewrite length_replicate.
Qed.

End MoreExecutors.

Section ExecutorOrder.

Context {T R : Type}.
Variable func : T -> result (cell R).
Variable items : list T.

Lemma unit_outcome_not_none (item : T) :
  func item <> Ok CNone -> unit_outcome func item <> CNone.
Proof.
  unfold unit_outcome. destruct (func item) as [[ | | ]|e]; congruence.
Qed.

(** The state of [results] when the first [k] units have completed in
    the order of their inputs. *)
Lemma async_in_order_from (m : nat) :
  forall k,
    (k + m = length items)%nat ->
    (forall item, item ∈ items -> func item <> Ok CNone) ->
    fold_left (async_collect func items) (seq k m)
              (map (unit_outcome func) (take k items) ++ replicate m CNone)
    = map (unit_outcome func) items.
Proof.
  induction m as [|m IH]; intros k Hk Hsome.
  - cbn [seq fold_left replicate]. rewrite app_nil_r, take_ge by lia. reflexivity.
  - cbn [seq fold_left]. rewrite replicate_S.
    destruct (lookup_lt_is_Some_2 items k) as [item Hitem]; [lia|].
    assert (Hpre : length (map (unit_outcome func) (take k items)) = k).
    { rewrite length_map, length_take_le by lia. reflexivity. }
    assert (Hstep :
      async_collect func items
        (map (unit_outcome func) (take k items) ++ CNone :: replicate m CNone) k
      = map (unit_outcome func) (take (S k) items) ++ replicate m CNone).
    { unfold async_collect. rewrite Hitem.
      rewrite (take_S_r _ _ _ Hitem), map_app, <- app_assoc. cbn [map app].
      assert (Hfull : Forall (fun c => c <> CNone)
                             (map (unit_outcome func) (take k items))).
      { apply Forall_forall. intros c Hc.
        apply list_elem_of_fmap in Hc. destruct Hc as (x & -> & Hx).
        apply unit_outcome_not_none, Hsome.
        now apply (subseteq_take k items). }
      set (pre := map (unit_outcome func) (take k items)) in *.
      unfold unit_outcome. destruct (func item) as [v|e].
      - replace k with (length pre + 0)%nat at 1 by lia.
        now rewrite insert_app_r.
      - now apply mark_first_none_app. }
    rewrite Hstep. apply IH; [lia|exact Hsome].
Qed.

(** When the units complete in the order of their inputs and no unit
    returns [None], the async executor returns the outcome of every
    unit, failures included, in the slot of its input. *)
Lemma run_concurrent_with_rate_limit_in_order :
  (forall item, item ∈ items -> func item <> Ok CNone) ->
  run_concurrent_with_rate_limit func items (seq 0 (length items))
  = map (unit_outcome func) items.
Proof.
  intros Hsome. unfold run_concurrent_with_rate_limit.
  exact (async_in_order_from (length items) 0 eq_refl Hsome).
Qed.

End ExecutorOrder.

Lemma run_concurrent_with_rate_limit_in_order_witness :
  run_concurrent_with_rate_limit flaky [2; 1]%nat (seq 0 (length [2; 1]%nat))
  = map (unit_outcome flaky) [2; 1]%nat.
Proof.
  apply (run_concurrent_with_rate_limit_in_order flaky [2; 1]%nat).
  intros item Hitem. unfold flaky. destruct (item =? 1)%nat; discriminate.
Defined.

Section FailureCount.

Context {T R : Type}.
Variable func : T -> result (cell R).
Variable items : list T.

Lemma filter_complement_length {A} (p : A -> bool) (l : list A) :
  (length (List.filter (fun x => negb (p x)) l) + length (List.filter p l)
   = length l)%nat.
Proof.
  induction l as [|x l IH]; [reflexivity|].
  cbn [List.filter]. destruct (p x); cbn [negb length]; lia.
Qed.

Lemma count_exc_insert (rs : list (cell R)) (i : nat) (v : cell R) :
  (length (List.filter is_exception (<[i := v]> rs))
   <= length (List.filter is_exception rs) + (if is_exception v then 1 else 0))%nat.
Proof.
  revert i. induction rs as [|c rs IH]; intros i;
    [destruct i; cbn; lia|].
  destruct i as [|i].
  - change (<[0%nat := v]> (c :: rs)) with (v :: rs). cbn [List.filter].
    destruct (is_exception v), (is_exception c); cbn [length]; lia.
  - change (<[S i := v]> (c :: rs)) with (c :: <[i := v]> rs). cbn [List.filter].
    specialize (IH i). destruct (is_exception c); cbn [length]; lia.
Qed.

Lemma count_exc_mark (e : exn) (rs : list (cell R)) :
  (length (List.filter is_exception (mark_first_none e rs))
   <= length (List.filter is_exception rs) + 1)%nat.
Proof.
  induction rs as [|c rs IH]; [cbn; lia|].
  destruct c; cbn [mark_first_none List.filter is_exception length]; lia.
Qed.

(** Collecting one task adds at most one exception to [results], and
    none when the unit of the task did not end in an exception. *)
Lemma count_exc_collect (rs : list (cell R)) (index : nat) :
  (length (List.filter is_exception (async_collect func items rs index))
   <= length (List.filter is_exception rs)
      + (if match items !! index with
            | Some item => ends_in_exception func item
            | None => false
            end then 1 else 0))%nat.
Proof.
  unfold async_collect, ends_in_exception, unit_outcome.
  destruct (items !! index) as [item|]; [|lia].
  destruct (func item) as [v|e]; [apply count_exc_insert|apply count_exc_mark].
Qed.

Lemma count_exc_fold (schedule : list nat) :
  forall rs,
    (length (List.filter is_exception
               (fold_left (async_collect func items) schedule rs))
     <= length (List.filter is_exception rs)
        + length (List.filter
                    (fun i => match items !! i with
                              | Some item => ends_in_exception func item
                              | None => false
                              end) schedule))%nat.
Proof.
  induction schedule as [|index rest IH]; intros rs; cbn [fold_left List.filter].
  - lia.
  - specialize (IH (async_collect func items rs index)).
    pose proof (count_exc_collect rs index) as Hstep.
    destruct (match items !! index with
              | Some item => ends_in_exception func item
              | None => false
              end); cbn [length]; lia.
Qed.

Lemma async_fold_length (schedule : list nat) :
  forall rs,
    length (fold_left (async_collect func items) schedule rs) = length rs.
Proof.
  induction schedule as [|index rest IH]; intros rs; cbn [fold_left]; [reflexivity|].
  rewrite IH. unfold async_collect.
  destruct (items !! index) as [item|]; [|reflexivity].
  destruct (func item); [apply length_insert|].
  induction rs as [|c rs IHrs]; [reflexivity|].
  destruct c; cbn [mark_first_none length]; congruence.
Qed.

(** The inputs whose unit ends in an exception, counted by position. *)
Lemma count_positions {A} (p : A -> bool) (l : list A) :
  length (List.filter (fun i => match l !! i with
                                | Some x => p x
                                | None => false
                                end) (seq 0 (length l)))
  = length (List.filter p l).
Proof.
  induction l as [|x l IH] using rev_ind; [reflexivity|].
  rewrite length_app. cbn [length]. rewrite Nat.add_1_r, seq_S.
  rewrite !List.filter_app, !length_app. cbn [Nat.add List.filter].
  rewrite (list_lookup_middle l [] x (length l) eq_refl).
  rewrite <- IH. f_equal.
  - f_equal. apply List.filter_ext_in. intros i Hi. apply in_seq in Hi.
    rewrite lookup_app_l by lia. reflexivity.
  - now destruct (p x).
Qed.

(** [execute_bulk_operation] counts every slot once, and when every
    task completes once it never reports more failures than there are
    units that ended in an exception.  (It can report fewer: a raised
    exception that lands in the slot of another task is overwritten.) *)
Lemma execute_bulk_operation_counts (schedule : list nat) :
  NoDup schedule ->
  (fst (snd (execute_bulk_operation func items schedule))
   + snd (snd (execute_bulk_operation func items schedule))
   = length items)%nat
  /\ (snd (snd (execute_bulk_operation func items schedule))
      <= length (List.filter (ends_in_exception func) items))%nat.
Proof.
  intros Hnodup. unfold execute_bulk_operation. cbn [fst snd].
  set (results := run_concurrent_with_rate_limit func items schedule).
  pose proof (filter_complement_length is_exception results) as Hsplit.
  assert (Hlen : length results = length items).
  { unfold results, run_concurrent_with_rate_limit.
    rewrite async_fold_length. apply length_replicate. }
  split; [lia|].
  assert (Hexc : (length results
                  - length (List.filter (fun r => negb (is_exception r)) results)
                  = length (List.filter is_exception results))%nat) by lia.
  rewrite Hexc. unfold results, run_concurrent_with_rate_limit.
  etransitivity; [apply count_exc_fold|].
  assert (Hinit : length (List.filter is_exception
                            (replicate (length items) (@CNone R))) = 0%nat).
  { generalize (length items). intros n.
    induction n as [|n IHn]; [reflexivity|exact IHn]. }
  rewrite Hinit. cbn [Nat.add].
  rewrite <- (count_positions (ends_in_exception func) items).
  apply List.NoDup_incl_length.
  - apply List.NoDup_filter. now apply NoDup_ListNoDup.
  - intros i Hi. apply filter_In in Hi. destruct Hi as [_ Hi].
    apply filter_In. split; [|exact Hi].
    apply in_seq. split; [lia|]. cbn [Nat.add].
    destruct (items !! i) as [item|] eqn:Hitem; [|discriminate].
    eapply lookup_lt_Some; eauto.
Qed.

End FailureCount.

Lemma execute_bulk_operation_counts_witness :
  (fst (snd (execute_bulk_operation flaky [2; 1]%nat [1; 0]%nat))
   + snd (snd (execute_bulk_operation flaky [2; 1]%nat [1; 0]%nat))
   = length [2; 1]%nat)%nat
  /\ (snd (snd (execute_bulk_operation flaky [2; 1]%nat [1; 0]%nat))
      <= length (List.filter (ends_in_exception flaky) [2; 1]%nat))%nat.
Proof.
  apply (execute_bulk_operation_counts flaky [2; 1]%nat [1; 0]%nat).
  apply NoDup_cons. split.
  - intros Hin. apply elem_of_cons in Hin. destruct Hin as [Hin|Hin];
      [discriminate|now apply elem_of_nil in Hin].
  - apply NoDup_cons. split; [apply not_elem_of_nil|apply NoDup_nil_2].
Defined.

Lemma run_concurrent_with_rate_limit_without_failure_witness :
  run_concurrent_with_rate_limit tenfold [2; 1]%nat [1; 0]%nat
  = map (unit_outcome tenfold) [2; 1]%nat.
Proof.
  apply (run_concurrent_with_rate_limit_without_failure tenfold [2; 1]%nat
           [1; 0]%nat).
  - intros item _. unfold tenfold. eauto.
  - intros i Hi. cbn [length] in Hi.
    destruct i as [|[|i]]; [| |lia].
    + apply elem_of_cons. right. apply elem_of_cons. now left.
    + apply elem_of_cons. now left.
Defined.

(* ===================================================================== *)
(** * Further properties of the rate limiter *)
(* ===================================================================== *)

(** [acquire] never returns before it was called. *)
Lemma acquire_returns_later (c : Clock) :
  clock_ok c ->
  forall fuel now l t l',
    acquire c fuel now l = Some (Ok (t, l')) -> (now <= t)%Q.
Proof.
  intros [Htick Hwake]. induction fuel as [|fuel IH]; intros now l t l' Hrun;
    [discriminate|].
  cbn [acquire] in Hrun.
  destruct (acquire_pass_cases l now (tick c now))
    as [[_ Hp] | [[_ (oldest & rest & _ & Hpos & Hp)] | (_ & _ & Hp)]];
    rewrite Hp in Hrun.
  - injection Hrun as <- _. apply Htick.
  - apply IH in Hrun.
    pose proof (Hwake now (time_window l - (now - oldest))%Q). lra.
  - discriminate.
Qed.

(** A limiter that is full delays the caller: when [max_calls] calls
    are still inside the window, [acquire] returns no earlier than a
    full window after the oldest of them. *)
Lemma acquire_full_waits (c : Clock) (fuel : nat) (now : Q) (l : RateLimiter)
    (oldest : Q) (rest : list Q) (t : Q) (l' : RateLimiter) :
  clock_ok c ->
  (max_calls l <= Z.of_nat (length (live_calls l now)))%Z ->
  live_calls l now = oldest :: rest ->
  acquire c fuel now l = Some (Ok (t, l')) ->
  (oldest + time_window l <= t)%Q /\ (now < t)%Q.
Proof.
  intros Hc Hfull Hkept Hrun.
  destruct fuel as [|fuel]; [discriminate|]. cbn [acquire] in Hrun.
  destruct (acquire_pass_full l now (tick c now) oldest rest Hfull Hkept)
    as [Hpos Hp].
  rewrite Hp in Hrun.
  apply (acquire_returns_later c Hc) in Hrun.
  destruct Hc as [_ Hwake].
  pose proof (Hwake now (time_window l - (now - oldest))%Q). split; lra.
Qed.

Lemma acquire_full_waits_witness :
  ((1 # 4) + time_window full_limiter <= 1 + (1 - (1 - (1 # 4))))%Q
  /\ (1 < 1 + (1 - (1 - (1 # 4))))%Q.
Proof.
  apply (acquire_full_waits exact_clock 2 1 full_limiter (1 # 4)%Q
           [(1 # 2)%Q; (3 # 4)%Q] (1 + (1 - (1 - (1 # 4))))%Q
           (set_calls full_limiter
              [(1 # 2)%Q; (3 # 4)%Q; (1 + (1 - (1 - (1 # 4))))%Q])).
  - exact exact_clock_ok.
  - vm_compute. discriminate.
  - reflexivity.
  - reflexivity.
Defined.

(** [reset] frees the limiter: whatever it had recorded, with a
    positive [max_calls] the next [acquire] records its call and
    returns at once, without sleeping. *)
Lemma reset_then_acquire (c : Clock) (fuel : nat) (now : Q) (l : RateLimiter) :
  (1 <= max_calls l)%Z ->
  acquire c (S fuel) now (reset l)
  = Some (Ok (tick c now, set_calls l [tick c now]))
  /\ acquire_pass (reset l) now (tick c now) = Granted (set_calls l [tick c now]).
Proof.
  intros Hmax.
  assert (Hp : acquire_pass (reset l) now (tick c now)
               = Granted (set_calls l [tick c now])).
  { rewrite acquire_pass_room; [reflexivity|].
    unfold live_calls, reset. cbn. lia. }
  split; [|exact Hp]. cbn [acquire]. now rewrite Hp.
Qed.

Lemma reset_then_acquire_witness :
  acquire exact_clock 1 1 (reset full_limiter)
  = Some (Ok (1%Q, set_calls full_limiter [1%Q]))
  /\ acquire_pass (reset full_limiter) 1 1 = Granted (set_calls full_limiter [1%Q]).
Proof.
  apply (reset_then_acquire exact_clock 0 1 full_limiter).
  vm_compute. discriminate.
Defined.

(** A limiter that is only used through [acquire] never holds more than
    [max_calls] timestamps, holds them in increasing order, and holds
    none that lies in the future. *)
Lemma lim_run_bounded (m : Z) (w t : Q) (hist : list Q) (l : RateLimiter) :
  lim_run m w t hist l ->
  (Z.of_nat (length (calls l)) <= Z.max 0 m)%Z
  /\ StronglySorted Qle (calls l)
  /\ List.Forall (fun x => (x <= t)%Q) (calls l).
Proof.
  intros Hrun. split.
  - induction Hrun as [t
                      | t hist l now now2 l' Hrun IH Ht Hnow Hpass
                      | t hist l now now2 d l' Hrun IH Ht Hpass
                      | t hist l now now2 e l' Hrun IH Ht Hpass].
    + cbn. lia.
    + apply acquire_pass_granted_inv in Hpass. destruct Hpass as [-> Hroom].
      pose proof (lim_run_inv _ _ _ _ _ Hrun) as (Hm & _).
      cbn [calls set_calls]. rewrite length_app. cbn [length]. lia.
    + destruct (acquire_pass_cases l now now2)
        as [[_ Hp] | [[_ (o & r & _ & _ & Hp)] | (_ & _ & Hp)]];
        rewrite Hp in Hpass; try discriminate.
      injection Hpass as _ <-. cbn [calls set_calls].
      pose proof (live_calls_length l now). lia.
    + destruct (acquire_pass_cases l now now2)
        as [[_ Hp] | [[_ (o & r & _ & _ & Hp)] | (_ & _ & Hp)]];
        rewrite Hp in Hpass; try discriminate.
      injection Hpass as _ <-. cbn. lia.
  - apply lim_run_inv in Hrun.
    destruct Hrun as (_ & _ & Hsorted & Hpast & _). auto.
Qed.

Lemma lim_run_bounded_witness :
  (Z.of_nat (length (calls (set_calls (new_limiter 3 1) [0%Q]))) <= Z.max 0 3)%Z
  /\ StronglySorted Qle (calls (set_calls (new_limiter 3 1) [0%Q]))
  /\ List.Forall (fun x => (x <= 0)%Q) (calls (set_calls (new_limiter 3 1) [0%Q])).
Proof.
  apply (lim_run_bounded 3 1 0 ([] ++ [0%Q])).
  apply (run_granted 3 1 0 [] (new_limiter 3 1) 0 0).
  - apply run_start.
  - apply Qle_refl.
  - apply Qle_refl.
  - reflexivity.
Defined.

(* ===================================================================== *)
(** * Further properties of the progress model and the coordinator *)
(* ===================================================================== *)



Lemma operations_unfold {W} (self : Coordinator) (remote : Remote W) (w : W)
    (server_ids : list string) (config : list (string * pyval)) :
  snd (launch_operation self remote w server_ids config)
  = bulk_operation self "launch_test" server_ids
      (snd (launch_test_instances remote (get config "instance_type")
              (get config "subnet_id") w server_ids))
  /\ snd (terminate_operation self remote w server_ids)
     = bulk_operation self "terminate_test" server_ids
         (snd (terminate_test_instances remote w server_ids)).
Proof.
  unfold launch_operation, terminate_operation. split.
  - now destruct (launch_test_instances remote _ _ w server_ids).
  - now destruct (terminate_test_instances remote w server_ids).
Qed.

(** What the aggregation loops leave in the progress object: one row
    per completion, in the order of the completions, and the two
    counters raised by the numbers of successes and of failures. *)
Lemma aggregate_fold (self : Coordinator) (op : string) (cs : list completion) :
  forall p,
    map result_summary (results (fold_left (aggregate self op) cs p))
    = map result_summary (results p) ++ map completion_summary cs
    /\ successful (fold_left (aggregate self op) cs p)
       = (successful p + Z.of_nat (length (List.filter is_success cs)))%Z
    /\ failed (fold_left (aggregate self op) cs p)
       = (failed p
          + Z.of_nat (length (List.filter (fun c => negb (is_success c)) cs)))%Z.
Proof.
  induction cs as [|c cs IH]; intros p; cbn [fold_left map List.filter].
  - rewrite app_nil_r. cbn [length]. repeat split; lia.
  - destruct (IH (aggregate self op p c)) as (Hr & Hs & Hf).
    rewrite Hr, Hs, Hf.
    destruct c as [item|id msg];
      cbn [aggregate record_success record_failure results successful failed
           is_success negb length completion_summary];
      rewrite map_app, <- app_assoc; cbn [map app result_summary server_id success
                                            error_message instance_id];
      repeat split; lia.
Qed.

Lemma completions_of_counts (res : action_results) :
  length (List.filter is_success (completions_of res)) = length (r_successful res)
  /\ length (List.filter (fun c => negb (is_success c)) (completions_of res))
     = length (r_failed res).
Proof.
  unfold completions_of. rewrite !List.filter_app, !length_app.
  assert (H1 : forall l : list success_item,
             List.filter is_success (map Succeeded l) = map Succeeded l
             /\ List.filter (fun c => negb (is_success c)) (map Succeeded l) = []).
  { induction l as [|x l [IH1 IH2]]; [auto|]. cbn. now rewrite IH1, IH2. }
  assert (H2 : forall l : list failed_item,
             List.filter is_success
               (map (fun item => Failed_with (f_server_id item) (error item)) l) = []
             /\ List.filter (fun c => negb (is_success c))
                  (map (fun item => Failed_with (f_server_id item) (error item)) l)
                = map (fun item => Failed_with (f_server_id item) (error item)) l).
  { induction l as [|x l [IH1 IH2]]; [auto|]. cbn. now rewrite IH1, IH2. }
  destruct (H1 (r_successful res)) as [-> ->].
  destruct (H2 (r_failed res)) as [-> ->].
  rewrite !length_map. cbn [length]. lia.
Qed.

(** When the remote loop returns, the final progress object counts its
    successes and its failures, and its rows are all successes, in the
    order of the loop, followed by all failures: each success carries
    the job id, each failure the message of its [ClientError]. *)
Lemma bulk_operation_after_return (self : Coordinator) (op : string)
    (server_ids : list string) (res : action_results) :
  successful (snd (bulk_operation self op server_ids (Ok res)))
  = Z.of_nat (length (r_successful res))
  /\ failed (snd (bulk_operation self op server_ids (Ok res)))
     = Z.of_nat (length (r_failed res))
  /\ map result_summary (results (snd (bulk_operation self op server_ids (Ok res))))
     = map (fun item => (s_server_id item, true, PNone, job_id item))
           (r_successful res)
       ++ map (fun item => (f_server_id item, false, PStr (error item), PNone))
              (r_failed res).
Proof.
  unfold bulk_operation. cbn [completions].
  destruct (aggregate_all self op (completions_of res)
              (new_progress (Z.of_nat (length server_ids)))) as [log final] eqn:Hrun.
  destruct (aggregate_all_log self op _ _ _ _ Hrun) as (_ & _ & _ & _ & _ & -> & _).
  cbn [snd].
  destruct (aggregate_fold self op (completions_of res)
              (new_progress (Z.of_nat (length server_ids)))) as (Hr & Hs & Hf).
  destruct (completions_of_counts res) as [Hcs Hcf].
  rewrite Hr, Hs, Hf, Hcs, Hcf. cbn [new_progress results successful failed map app].
  split; [lia|]. split; [lia|].
  unfold completions_of. rewrite map_app, !map_map. reflexivity.
Qed.

(** When the remote loop raises, every server of the operation is
    reported as failed with the text of that exception, in the order of
    the server ids, and none as successful: so is a server whose test
    the loop had already started. *)
Lemma bulk_operation_after_raise (self : Coordinator) (op : string)
    (server_ids : list string) (e : exn) :
  successful (snd (bulk_operation self op server_ids (Raise e))) = 0%Z
  /\ failed (snd (bulk_operation self op server_ids (Raise e)))
     = Z.of_nat (length server_ids)
  /\ map result_summary (results (snd (bulk_operation self op server_ids (Raise e))))
     = map (fun id => (id, false, PStr (exn_text self e), PNone)) server_ids.
Proof.
  unfold bulk_operation. cbn [completions].
  destruct (aggregate_all self op (all_failed self e server_ids)
              (new_progress (Z.of_nat (length server_ids)))) as [log final] eqn:Hrun.
  destruct (aggregate_all_log self op _ _ _ _ Hrun) as (_ & _ & _ & _ & _ & -> & _).
  cbn [snd].
  destruct (aggregate_fold self op (all_failed self e server_ids)
              (new_progress (Z.of_nat (length server_ids)))) as (Hr & Hs & Hf).
  rewrite Hr, Hs, Hf. cbn [new_progress results successful failed map app].
  unfold all_failed.
  assert (Hcount : forall l : list string,
             List.filter is_success
               (map (fun id => Failed_with id (exn_text self e)) l) = []
             /\ length (List.filter (fun c => negb (is_success c))
                          (map (fun id => Failed_with id (exn_text self e)) l))
                = length l).
  { induction l as [|x l [IH1 IH2]]; [auto|]. cbn. now rewrite IH1, IH2. }
  destruct (Hcount server_ids) as [-> ->]. cbn [length].
  split; [lia|]. split; [lia|]. now rewrite map_map.
Qed.

(** An exception of the remote loop that is no [ClientError] fails the
    whole launch or terminate operation: every server is reported as
    failed with the text of the exception and none as successful, also
    the servers for which the remote call had already succeeded. *)
Lemma operation_raise_reports_all_failed {W} (self : Coordinator)
    (remote : Remote W) (w : W) (server_ids : list string)
    (config : list (string * pyval)) (e : exn) :
  (snd (launch_test_instances remote (get config "instance_type")
          (get config "subnet_id") w server_ids) = Raise e ->
   successful (snd (snd (launch_operation self remote w server_ids config))) = 0%Z
   /\ map result_summary
          (results (snd (snd (launch_operation self remote w server_ids config))))
      = map (fun id => (id, false, PStr (exn_text self e), PNone)) server_ids)
  /\ (snd (terminate_test_instances remote w server_ids) = Raise e ->
      successful (snd (snd (terminate_operation self remote w server_ids))) = 0%Z
      /\ map result_summary
             (results (snd (snd (terminate_operation self remote w server_ids))))
         = map (fun id => (id, false, PStr (exn_text self e), PNone)) server_ids).
Proof.
  destruct (operations_unfold self remote w server_ids config) as [Hl Ht].
  split; intros Hraise.
  - rewrite Hl, Hraise.
    destruct (bulk_operation_after_raise self "launch_test" server_ids e)
      as (A & _ & B). auto.
  - rewrite Ht, Hraise.
    destruct (bulk_operation_after_raise self "terminate_test" server_ids e)
      as (A & _ & B). auto.
Qed.

Lemma operation_raise_reports_all_failed_witness :
  fst (launch_test_instances timing_out_remote PNone PNone O ["s-1"; "s-2"]) = 2%nat
  /\ successful (snd (snd (launch_operation bare_coordinator timing_out_remote O
                             ["s-1"; "s-2"] []))) = 0%Z
  /\ map result_summary
       (results (snd (snd (launch_operation bare_coordinator timing_out_remote O
                             ["s-1"; "s-2"] []))))
     = map (fun id => (id, false,
                       PStr (exn_text bare_coordinator (Exception "timed out")),
                       PNone)) ["s-1"; "s-2"].
Proof.
  split; [reflexivity|].
  apply (proj1 (operation_raise_reports_all_failed bare_coordinator
                  timing_out_remote O ["s-1"; "s-2"] [] (Exception "timed out"))).
  reflexivity.
Defined.

Lemma percentage_of_complete (p : BulkOperationProgress) :
  completed p = total_servers p -> (0 < total_servers p)%Z ->
  exists q, progress_percentage p = Ok q /\ (q == 100)%Q.
Proof.
  intros Hdone Hpos. unfold progress_percentage.
  destruct (Z.eqb_spec (total_servers p) 0) as [Hz|Hnz]; [lia|].
  rewrite py_truediv_nonzero by assumption. cbn [Py.bind].
  eexists. split; [reflexivity|]. rewrite Hdone.
  destruct (total_servers p) as [|tp|tp]; [lia| |lia].
  unfold Qeq, Qdiv, Qmult, Qinv, inject_Z. simpl. lia.
Qed.

(** Every launch and every terminate operation ends complete: the
    final progress object satisfies [is_complete], at 100 percent when
    there was at least one server and at 0 percent when there was
    none. *)
Lemma operation_ends_complete {W} (self : Coordinator) (remote : Remote W)
    (w : W) (server_ids : list string) (config : list (string * pyval)) :
  forall run,
    run = snd (launch_operation self remote w server_ids config)
    \/ run = snd (terminate_operation self remote w server_ids) ->
    is_complete (snd run) = true
    /\ exists q,
         progress_percentage (snd run) = Ok q
         /\ (server_ids = [] -> q = 0%Q)
         /\ (server_ids <> [] -> (q == 100)%Q).
Proof.
  intros run Hrun.
  destruct (operations_are_bulk self remote w server_ids config run Hrun)
    as (op & outcome & -> & Hlen).
  destruct (bulk_operation_log self op server_ids outcome Hlen)
    as (steps & action & _ & _ & Hinv & Hdone & _).
  apply Forall_cons in Hinv. destruct Hinv as [_ Hinv].
  apply Forall_app in Hinv. destruct Hinv as [_ Hinv].
  apply Forall_inv in Hinv.
  destruct Hinv as (Htot & _ & _ & _ & _ & Hle).
  set (final := snd (bulk_operation self op server_ids outcome)) in *.
  assert (Hcomplete : is_complete final = true).
  { unfold is_complete. apply Z.leb_le. lia. }
  split; [exact Hcomplete|].
  destruct server_ids as [|id ids].
  - exists 0%Q. unfold progress_percentage. rewrite Htot. cbn.
    split; [reflexivity|]. split; [reflexivity|]. intros Hne. contradiction.
  - destruct (percentage_of_complete final) as (q & Hq & H100).
    + lia.
    + rewrite Htot. cbn [length]. lia.
    + exists q. split; [exact Hq|]. split; [discriminate|]. intros _. exact H100.
Qed.

Lemma operation_ends_complete_witness :
  is_complete (snd (snd two_server_launch)) = true
  /\ exists q,
       progress_percentage (snd (snd two_server_launch)) = Ok q
       /\ (["s-1"; "s-2"] = [] -> q = 0%Q)
       /\ (["s-1"; "s-2"] <> [] -> (q == 100)%Q).
Proof.
  apply (operation_ends_complete bare_coordinator obliging_remote O
           ["s-1"; "s-2"] [] (snd two_server_launch)).
  left. reflexivity.
Defined.

(* ===================================================================== *)
(** * Further properties of the remote loops *)
(* ===================================================================== *)

Lemma action_loop_app {W} (unit : W -> string -> W * result success_item)
    (l1 l2 : list string) :
  forall w res,
    action_loop unit w (l1 ++ l2) res
    = match action_loop unit w l1 res with
      | (w1, Ok res1) => action_loop unit w1 l2 res1
      | (w1, Raise e) => (w1, Raise e)
      end.
Proof.
  induction l1 as [|id l1 IH]; intros w res; cbn [app action_loop]; [reflexivity|].
  destruct (unit w id) as [w' [item|e]]; [apply IH|].
  destruct e; try reflexivity. apply IH.
Qed.

(** An exception that is no [ClientError] ends the loop at once: the
    remote service is left in the state in which the failing call left
    it, and the servers after the failing one are never contacted. *)
Lemma action_loop_aborts {W} (unit : W -> string -> W * result success_item)
    (pre post : list string) (id : string) (w w1 w2 : W)
    (res res1 : action_results) (e : exn) :
  action_loop unit w pre res = (w1, Ok res1) ->
  unit w1 id = (w2, Raise e) ->
  (forall code message text, e <> ClientError code message text) ->
  action_loop unit w (pre ++ id :: post) res = (w2, Raise e).
Proof.
  intros Hpre Hunit Hother. rewrite action_loop_app, Hpre.
  cbn [action_loop]. rewrite Hunit.
  destruct e; try reflexivity. exfalso. eapply Hother. reflexivity.
Qed.

Lemma action_loop_aborts_witness :
  action_loop (launch_unit timing_out_remote PNone PNone) O
              (["s-1"] ++ "s-2" :: ["s-3"; "s-4"]) (new_results 4)
  = (2%nat, Raise (Exception "timed out")).
Proof.
  apply (action_loop_aborts (launch_unit timing_out_remote PNone PNone)
           ["s-1"] ["s-3"; "s-4"] "s-2" O 1%nat 2%nat (new_results 4)
           (add_successful (new_results 4)
              {| s_server_id := "s-1"; job_id := PStr "job-1";
                 s_status := "launched" |})
           (Exception "timed out")).
  - reflexivity.
  - reflexivity.
  - intros code message text. discriminate.
Defined.

Lemma launch_unit_id {W} (remote : Remote W) (instance_type subnet_id : pyval)
    (w w' : W) (id : string) (item : success_item) :
  launch_unit remote instance_type subnet_id w id = (w', Ok item) ->
  s_server_id item = id /\ s_status item = "launched".
Proof.
  unfold launch_unit.
  destruct (build_launch_config instance_type subnet_id) as [cfg|e]; [|discriminate].
  destruct (match cfg with
            | [] => (w, Ok tt)
            | _ :: _ => update_launch_configuration remote w id cfg
            end) as [w1 [u|e]]; [|discriminate].
  destruct (start_test remote w1 id) as [w2 [response|e]]; cbn [Py.bind];
    [|discriminate].
  destruct (response_job_id response) as [j|e]; cbn [Py.bind]; [|discriminate].
  intros H. injection H as _ <-. auto.
Qed.

Lemma terminate_unit_id {W} (remote : Remote W) (w w' : W) (id : string)
    (item : success_item) :
  terminate_unit remote w id = (w', Ok item) ->
  s_server_id item = id /\ s_status item = "terminated".
Proof.
  unfold terminate_unit.
  destruct (stop_test remote w id) as [w1 [response|e]]; cbn [Py.bind];
    [|discriminate].
  destruct (response_job_id response) as [j|e]; cbn [Py.bind]; [|discriminate].
  intros H. injection H as _ <-. auto.
Qed.

Lemma action_loop_partition {W} (unit : W -> string -> W * result success_item)
    (ids : list string) :
  (forall w id w' item, unit w id = (w', Ok item) -> s_server_id item = id) ->
  forall w res w' res',
    action_loop unit w ids res = (w', Ok res') ->
    r_total res' = r_total res
    /\ exists succ failed,
         map s_server_id (r_successful res')
         = map s_server_id (r_successful res) ++ succ
         /\ map f_server_id (r_failed res') = map f_server_id (r_failed res) ++ failed
         /\ succ `sublist_of` ids
         /\ failed `sublist_of` ids
         /\ succ ++ failed ≡ₚ ids.
Proof.
  intros Hid. induction ids as [|id ids IH]; intros w res w' res' Hrun;
    cbn [action_loop] in Hrun.
  - injection Hrun as <- <-. split; [reflexivity|]. exists [], [].
    rewrite !app_nil_r. repeat split; constructor.
  - destruct (unit w id) as [w1 [item|e]] eqn:Hunit.
    + apply IH in Hrun. destruct Hrun as (Ht & succ & failed & Hs & Hf & Ss & Sf & Hp).
      split; [exact Ht|]. exists (id :: succ), failed.
      cbn [add_successful r_successful r_failed] in Hs, Hf.
      rewrite map_app in Hs. cbn [map] in Hs.
      rewrite (Hid _ _ _ _ Hunit), <- app_assoc in Hs.
      split; [exact Hs|]. split; [exact Hf|].
      split; [now apply sublist_skip|]. split; [now apply sublist_cons|].
      cbn [app]. now rewrite Hp.
    + destruct e; try discriminate.
      apply IH in Hrun. destruct Hrun as (Ht & succ & failed & Hs & Hf & Ss & Sf & Hp).
      split; [exact Ht|]. exists succ, (id :: failed).
      cbn [add_failed r_successful r_failed] in Hs, Hf.
      rewrite map_app in Hf. cbn [map f_server_id] in Hf.
      rewrite <- app_assoc in Hf.
      split; [exact Hs|]. split; [exact Hf|].
      split; [now apply sublist_cons|]. split; [now apply sublist_skip|].
      rewrite <- Permutation_middle. now rewrite Hp.
Qed.

(** When [launch_test_instances] or [terminate_test_instances]
    returns, every server id ended in exactly one of the two lists of
    the result: both lists keep the order of the ids, together they
    hold the ids once each, and [total] is their number. *)
Lemma remote_loop_partitions {W} (remote : Remote W)
    (instance_type subnet_id : pyval) (w : W) (server_ids : list string)
    (res : action_results) :
  snd (launch_test_instances remote instance_type subnet_id w server_ids) = Ok res
  \/ snd (terminate_test_instances remote w server_ids) = Ok res ->
  r_total res = Z.of_nat (length server_ids)
  /\ map s_server_id (r_successful res) `sublist_of` server_ids
  /\ map f_server_id (r_failed res) `sublist_of` server_ids
  /\ map s_server_id (r_successful res) ++ map f_server_id (r_failed res)
     ≡ₚ server_ids.
Proof.
  unfold launch_test_instances, terminate_test_instances.
  intros [Hrun|Hrun].
  - destruct (action_loop (launch_unit remote instance_type subnet_id) w server_ids
                (new_results (length server_ids))) as [w' r] eqn:Hloop.
    cbn [snd] in Hrun. subst r.
    apply action_loop_partition in Hloop;
      [|intros; eapply launch_unit_id; eauto].
    destruct Hloop as (Ht & succ & failed & Hs & Hf & Ss & Sf & Hp).
    cbn in Hs, Hf, Ht. subst succ failed. auto.
  - destruct (action_loop (terminate_unit remote) w server_ids
                (new_results (length server_ids))) as [w' r] eqn:Hloop.
    cbn [snd] in Hrun. subst r.
    apply action_loop_partition in Hloop;
      [|intros; eapply terminate_unit_id; eauto].
    destruct Hloop as (Ht & succ & failed & Hs & Hf & Ss & Sf & Hp).
    cbn in Hs, Hf, Ht. subst succ failed. auto.
Qed.

Lemma remote_loop_partitions_witness :
  r_total
    {| r_successful :=
         [ {| s_server_id := "s-1"; job_id := PStr "job-1"; s_status := "launched" |};
           {| s_server_id := "s-2"; job_id := PStr "job-1"; s_status := "launched" |} ];
       r_failed := []; r_total := 2 |} = Z.of_nat (length ["s-1"; "s-2"])
  /\ ["s-1"; "s-2"] `sublist_of` ["s-1"; "s-2"]
  /\ [] `sublist_of` ["s-1"; "s-2"]
  /\ ["s-1"; "s-2"] ++ [] ≡ₚ ["s-1"; "s-2"].
Proof.
  apply (remote_loop_partitions obliging_remote PNone PNone O ["s-1"; "s-2"]
           {| r_successful :=
                [ {| s_server_id := "s-1"; job_id := PStr "job-1";
                     s_status := "launched" |};
                  {| s_server_id := "s-2"; job_id := PStr "job-1";
                     s_status := "launched" |} ];
              r_failed := []; r_total := 2 |}).
  left. reflexivity.
Defined.

Lemma no_launch_config_spec (instance_type subnet_id : pyval) :
  no_launch_config instance_type subnet_id = true <->
  build_launch_config instance_type subnet_id = Ok [].
Proof.
  unfold no_launch_config, build_launch_config.
  destruct (truthy instance_type) eqn:Hit;
    destruct (eq_str instance_type "Use recommended") eqn:Hrec;
    destruct (truthy subnet_id) eqn:Hsn; cbn [negb andb orb];
    try (split; [reflexivity|reflexivity]);
    try (split; [discriminate|]);
    try (destruct subnet_id; cbn [app]; discriminate).
Qed.

(** Without an instance type of one's own and without a subnet,
    launching tests never updates a launch configuration: the outcome
    and the state of the remote service do not depend on what
    [update_launch_configuration] would do.  Terminating tests never
    depends on it either. *)
Lemma launch_without_config_never_updates {W} (remote : Remote W)
    (u : W -> string -> list (string * pyval) -> W * result unit)
    (instance_type subnet_id : pyval) (w : W) (server_ids : list string) :
  (no_launch_config instance_type subnet_id = true ->
   launch_test_instances (with_update remote u) instance_type subnet_id w server_ids
   = launch_test_instances remote instance_type subnet_id w server_ids)
  /\ terminate_test_instances (with_update remote u) w server_ids
     = terminate_test_instances remote w server_ids.
Proof.
  split.
  - intros Hnone. apply no_launch_config_spec in Hnone.
    unfold launch_test_instances.
    generalize (new_results (length server_ids)). revert w.
    induction server_ids as [|id ids IH]; intros w res; [reflexivity|].
    cbn [action_loop].
    assert (Hunit : launch_unit (with_update remote u) instance_type subnet_id w id
                    = launch_unit remote instance_type subnet_id w id).
    { unfold launch_unit. rewrite Hnone. reflexivity. }
    rewrite Hunit.
    destruct (launch_unit remote instance_type subnet_id w id) as [w' [item|e]];
      [apply IH|].
    destruct e; try reflexivity. apply IH.
  - reflexivity.
Qed.

Lemma launch_without_config_never_updates_witness :
  launch_test_instances (with_update obliging_remote
                           (fun w _ _ => (w, Raise (Exception "never called"))))
                        (PStr "Use recommended") PNone O ["s-1"; "s-2"]
  = launch_test_instances obliging_remote (PStr "Use recommended") PNone O
                          ["s-1"; "s-2"].
Proof.
  apply (proj1 (launch_without_config_never_updates obliging_remote
                  (fun w _ _ => (w, Raise (Exception "never called")))
                  (PStr "Use recommended") PNone O ["s-1"; "s-2"])).
  reflexivity.
Defined.

Lemma split_space_head_idempotent (s : string) :
  split_space_head (split_space_head s) = split_space_head s.
Proof.
  induction s as [|c s IH]; [reflexivity|]. cbn [split_space_head].
  destruct (Ascii.eqb c " ") eqn:Hc; [reflexivity|].
  cbn [split_space_head]. rewrite Hc. now rewrite IH.
Qed.

(** The configuration that the launch dialog produces always builds a
    launch configuration, without raising: the instance type is set
    unless it is ["Use recommended"] or empty, and the subnet is set,
    with the disposition [STOPPED], to the text of the selector before
    its first space, unless that text is empty. *)
Lemma dialog_configuration_builds (subnet_var instance_type_var : string) :
  build_launch_config
    (get (get_launch_configuration subnet_var instance_type_var) "instance_type")
    (get (get_launch_configuration subnet_var instance_type_var) "subnet_id")
  = Ok ((if String.eqb instance_type_var "Use recommended"
            || String.eqb instance_type_var ""
         then []
         else [("targetInstanceTypeRightSizingMethod", PStr "NONE");
               ("targetInstanceType", PStr instance_type_var)])
        ++ (if String.eqb (split_space_head subnet_var) ""
            then []
            else [("launchDisposition", PStr "STOPPED");
                  ("subnetId", PStr (split_space_head subnet_var))])).
Proof.
  unfold get_launch_configuration, build_launch_config, get, get_or.
  cbn [app dict_get String.eqb Ascii.eqb Bool.eqb].
  destruct (String.eqb_spec instance_type_var "Use recommended") as [->|Hrec];
    cbn [negb app dict_get String.eqb Ascii.eqb Bool.eqb truthy eq_str andb orb].
  - destruct (String.eqb (split_space_head subnet_var) "") eqn:Hsn;
      cbn [negb]; [reflexivity|].
    now rewrite split_space_head_idempotent.
  - rewrite (proj2 (String.eqb_neq _ _) Hrec).
    destruct (String.eqb instance_type_var "");
      destruct (String.eqb (split_space_head subnet_var) "") eqn:Hsn;
      cbn [negb andb orb app]; try reflexivity;
      now rewrite split_space_head_idempotent.
Qed.

(* ===================================================================== *)
(** * Further properties of the parsing of records *)
(* ===================================================================== *)

Lemma mapping_get_in {A} (m : list (string * A)) (k : string) (dflt v : A) :
  mapping_get m k dflt = v -> v = dflt \/ In (k, v) m.
Proof.
  induction m as [|[k' v'] m IH]; cbn [mapping_get]; intros H; [now left|].
  destruct (String.eqb_spec k' k) as [->|_].
  - right. left. now rewrite H.
  - destruct (IH H) as [Hd|Hin]; [now left|right; now right].
Qed.

(** The status table is the identity on names: a lifecycle string that
    maps to a status other than [UNKNOWN] is the value of that status.
    Every status is reached from its own value, except [CUTOVER_FAILED],
    which the table lacks and which therefore parses to [UNKNOWN]; and
    parsing a string never raises. *)
Lemma parse_server_status_names :
  (forall s st,
      _parse_server_status (PStr s) = Ok st -> st <> SS_UNKNOWN ->
      status_value st = s)
  /\ (forall st,
        _parse_server_status (PStr (status_value st))
        = Ok (match st with SS_CUTOVER_FAILED => SS_UNKNOWN | _ => st end))
  /\ (forall s, exists st, _parse_server_status (PStr s) = Ok st
                           /\ st <> SS_CUTOVER_FAILED).
Proof.
  split; [|split].
  - intros s st H Hknown. unfold _parse_server_status in H.
    assert (Hget : mapping_get status_mapping s SS_UNKNOWN = st) by congruence.
    apply mapping_get_in in Hget. destruct Hget as [->|Hin]; [contradiction|].
    unfold status_mapping in Hin. cbn [In] in Hin.
    repeat (destruct Hin as [Hin|Hin];
            [injection Hin as <- <-; reflexivity|]).
    contradiction.
  - intros st. destruct st; reflexivity.
  - intros s. eexists. split; [reflexivity|].
    intros Hst. apply mapping_get_in in Hst. destruct Hst as [Hst|Hin];
      [discriminate|].
    unfold status_mapping in Hin. cbn [In] in Hin.
    repeat (destruct Hin as [Hin|Hin]; [discriminate|]).
    contradiction.
Qed.

Lemma parse_server_status_names_witness :
  status_value SS_READY_FOR_CUTOVER = "READY_FOR_CUTOVER".
Proof.
  apply (proj1 parse_server_status_names "READY_FOR_CUTOVER" SS_READY_FOR_CUTOVER).
  - reflexivity.
  - discriminate.
Defined.

Lemma key_eqb_refl (k : pyval) : hashable k = true -> key_eqb k k = true.
Proof.
  destruct k; cbn; try discriminate; intros _;
    try reflexivity; try apply String.eqb_refl; try apply Z.eqb_refl.
Qed.

Lemma key_eqb_trans (a b c : pyval) :
  key_eqb a b = true -> key_eqb a c = true -> key_eqb b c = true.
Proof.
  destruct a, b; cbn; try discriminate; destruct c; cbn; try discriminate;
    intros H1 H2; try reflexivity;
    try (apply Z.eqb_eq in H1; apply Z.eqb_eq in H2; apply Z.eqb_eq; lia);
    try (apply String.eqb_eq in H1; apply String.eqb_eq in H2;
         apply String.eqb_eq; congruence).
Qed.

(** Insert then look up: the key reads back the value just written, and
    every other key reads what it read before. *)
Lemma assoc_get_set (d : list (pyval * pyval)) (k v : pyval) :
  hashable k = true ->
  assoc_get (assoc_set d k v) k = Some v
  /\ (forall k', key_eqb k k' = false ->
        assoc_get (assoc_set d k v) k' = assoc_get d k').
Proof.
  intros Hk. split.
  - induction d as [|[k1 v1] d IH]; cbn [assoc_set assoc_get].
    + now rewrite key_eqb_refl.
    + destruct (key_eqb k1 k) eqn:E; cbn [assoc_get]; now rewrite E.
  - intros k' Hne.
    induction d as [|[k1 v1] d IH]; cbn [assoc_set assoc_get].
    + now rewrite Hne.
    + destruct (key_eqb k1 k) eqn:E; cbn [assoc_get].
      * destruct (key_eqb k1 k') eqn:E'; [|reflexivity].
        rewrite (key_eqb_trans k1 k k' E E') in Hne. discriminate.
      * now rewrite IH.
Qed.

Lemma collect_tags_app (xs ys : list pyval) :
  forall acc,
    collect_tags (xs ++ ys) acc
    = Py.bind (collect_tags xs acc) (fun acc' => collect_tags ys acc').
Proof.
  induction xs as [|x xs IH]; intros acc; cbn [app collect_tags Py.bind];
    [reflexivity|].
  destruct x as [ |b|z|s|l|tag]; try apply IH.
  destruct (dict_get tag "key") as [k|]; [|apply IH].
  destruct (dict_get tag "value") as [v|]; [|apply IH].
  unfold setitem. destruct (hashable k); cbn [Py.bind]; [apply IH|reflexivity].
Qed.

(** Tags that arrive as a list are read in order and a later entry
    overrides an earlier one with the same key: after the entries [ts]
    gave the tags [d], one more entry with key [k] and value [v] makes
    [k] read [v] and leaves every other key as it was; an entry without
    ["key"] or without ["value"] changes nothing; an entry whose key is
    a list or a map raises [TypeError]. *)
Lemma collect_tags_last_wins (ts : list pyval) (d : list (pyval * pyval))
    (tag : list (string * pyval)) :
  collect_tags ts [] = Ok d ->
  (forall k v,
      dict_get tag "key" = Some k -> dict_get tag "value" = Some v ->
      hashable k = true ->
      exists d',
        collect_tags (ts ++ [PDict tag]) [] = Ok d'
        /\ assoc_get d' k = Some v
        /\ (forall k', key_eqb k k' = false -> assoc_get d' k' = assoc_get d k'))
  /\ (dict_get tag "key" = None \/ dict_get tag "value" = None ->
      collect_tags (ts ++ [PDict tag]) [] = Ok d)
  /\ (forall k v,
        dict_get tag "key" = Some k -> dict_get tag "value" = Some v ->
        hashable k = false ->
        collect_tags (ts ++ [PDict tag]) [] = Raise TypeError).
Proof.
  intros Hts. split; [|split].
  - intros k v Hk Hv Hhash. exists (assoc_set d k v).
    rewrite collect_tags_app, Hts. cbn [Py.bind collect_tags].
    rewrite Hk, Hv. unfold setitem. rewrite Hhash. cbn [Py.bind].
    split; [reflexivity|]. now apply assoc_get_set.
  - intros Hmissing. rewrite collect_tags_app, Hts. cbn [Py.bind collect_tags].
    destruct Hmissing as [-> | Hv]; [reflexivity|].
    rewrite Hv. now destruct (dict_get tag "key").
  - intros k v Hk Hv Hhash.
    rewrite collect_tags_app, Hts. cbn [Py.bind collect_tags].
    rewrite Hk, Hv. unfold setitem. now rewrite Hhash.
Qed.

Lemma collect_tags_last_wins_witness :
  exists d',
    collect_tags ([PDict [("key", PStr "Env"); ("value", PStr "test")]]
                  ++ [PDict [("key", PStr "Env"); ("value", PStr "prod")]]) []
    = Ok d'
    /\ assoc_get d' (PStr "Env") = Some (PStr "prod")
    /\ (forall k', key_eqb (PStr "Env") k' = false ->
          assoc_get d' k' = assoc_get [(PStr "Env", PStr "test")] k').
Proof.
  apply (proj1 (collect_tags_last_wins
                  [PDict [("key", PStr "Env"); ("value", PStr "test")]]
                  [(PStr "Env", PStr "test")]
                  [("key", PStr "Env"); ("value", PStr "prod")] eq_refl)
           (PStr "Env") (PStr "prod")); reflexivity.
Defined.

(** The last-resort scan returns the first field, in the order of the
    record, whose value is a string shaped like an instance id (it
    starts with ["i-"] and is longer than 10 characters), and nothing
    when the record has no such field. *)
Lemma scan_instance_id_first (server_data : list (string * pyval)) :
  (forall v,
      scan_instance_id server_data = Some v ->
      exists pre k s post,
        server_data = pre ++ (k, PStr s) :: post
        /\ v = PStr s
        /\ instance_id_shaped s = true
        /\ (forall k' s', In (k', PStr s') pre -> instance_id_shaped s' = false))
  /\ (scan_instance_id server_data = None ->
      forall k s, In (k, PStr s) server_data -> instance_id_shaped s = false).
Proof.
  unfold instance_id_shaped.
  induction server_data as [|[k x] rest [IHs IHn]]; split.
  - discriminate.
  - intros _ k s [].
  - intros v Hscan. cbn [scan_instance_id] in Hscan.
    assert (Hrest : scan_instance_id rest = Some v ->
                    (forall s, x = PStr s ->
                       startswith s "i-" && (10 <? String.length s)%nat = false) ->
                    exists pre k0 s post,
                      (k, x) :: rest = pre ++ (k0, PStr s) :: post
                      /\ v = PStr s
                      /\ startswith s "i-" && (10 <? String.length s)%nat = true
                      /\ (forall k' s', In (k', PStr s') pre ->
                            startswith s' "i-" && (10 <? String.length s')%nat
                            = false)).
    { intros Hr Hx. destruct (IHs v Hr) as (pre & k0 & s & post & -> & -> & Hs & Hpre).
      exists ((k, x) :: pre), k0, s, post. repeat split; try assumption.
      intros k' s' [Heq|Hin]; [|eauto]. injection Heq as _ ->. now apply Hx. }
    destruct x as [ |b|z|s|l|d]; try (apply Hrest; [exact Hscan|discriminate]).
    destruct (startswith s "i-" && (10 <? String.length s)%nat) eqn:Hshape.
    + injection Hscan as <-. exists [], k, s, rest.
      repeat split; [exact Hshape|]. intros k' s' [].
    + apply Hrest; [exact Hscan|]. intros s' Hs'. now injection Hs' as <-.
  - intros Hscan k0 s [Heq|Hin]; cbn [scan_instance_id] in Hscan.
    + injection Heq as -> ->.
      destruct (startswith s "i-" && (10 <? String.length s)%nat);
        [discriminate|reflexivity].
    + destruct x as [ |b|z|s1|l|d]; try (now apply (IHn Hscan k0 s)).
      destruct (startswith s1 "i-" && (10 <? String.length s1)%nat);
        [discriminate|now apply (IHn Hscan k0 s)].
Qed.

Lemma scan_instance_id_first_witness :
  exists pre k s post,
    [("sourceServerID", PStr "s-1234567890abcdef");
     ("note", PStr "i-0123456789abcdef0")]
    = pre ++ (k, PStr s) :: post
    /\ PStr "i-0123456789abcdef0" = PStr s
    /\ instance_id_shaped s = true
    /\ (forall k' s', In (k', PStr s') pre -> instance_id_shaped s' = false).
Proof.
  apply (proj1 (scan_instance_id_first
                  [("sourceServerID", PStr "s-1234567890abcdef");
                   ("note", PStr "i-0123456789abcdef0")])
               (PStr "i-0123456789abcdef0")).
  reflexivity.
Defined.

(** The second and third place where a test instance is looked for
    only ever give an instance that is ["running"]. *)
Lemma later_stages_are_running (server_data : list (string * pyval))
    (i0 s0 : pyval) :
  let found :=
    (let '(test_instance_id, test_instance_state) :=
       if negb (truthy i0) then
         let test_instance_id := get server_data "testInstanceID" in
         if truthy test_instance_id then (test_instance_id, PStr "running")
         else (test_instance_id, s0)
       else (i0, s0) in
     if negb (truthy test_instance_id) then
       match scan_instance_id server_data with
       | Some value => (value, PStr "running")
       | None => (test_instance_id, test_instance_state)
       end
     else (test_instance_id, test_instance_state)) in
  truthy (fst found) && negb (truthy (snd found)) = true ->
  found = (i0, s0) /\ truthy i0 = true /\ truthy s0 = false.
Proof.
  cbv zeta.
  destruct (truthy i0) eqn:Hi; cbn [negb].
  - rewrite Hi. cbn [negb fst snd]. rewrite Hi. cbn [andb].
    intros H. apply negb_true_iff in H. auto.
  - destruct (truthy (get server_data "testInstanceID")) eqn:Ht.
    + rewrite Ht. cbn [negb fst snd truthy String.eqb andb]. rewrite Ht.
      discriminate.
    + rewrite Ht. cbn [negb].
      destruct (scan_instance_id server_data); cbn [fst snd truthy String.eqb negb].
      * rewrite andb_false_r. discriminate.
      * rewrite Ht. discriminate.
Qed.

(** EC2 is only asked about a launched instance: when parsing needs the
    lookup, the test instance id is the [ec2InstanceID] of the record's
    [launchedInstance], which has no state.  An id that comes from
    [testInstanceID] or from the scan has the state ["running"] and
    needs no lookup. *)
Lemma lookup_only_for_launched_instance (server_data : list (string * pyval)) :
  needs_lookup server_data = true ->
  exists launched_instance,
    dict_get server_data "launchedInstance" = Some (PDict launched_instance)
    /\ find_test_instance server_data
       = (get launched_instance "ec2InstanceID", get launched_instance "state")
    /\ truthy (get launched_instance "ec2InstanceID") = true
    /\ truthy (get launched_instance "state") = false.
Proof.
  unfold needs_lookup, find_test_instance, get_or.
  destruct (dict_get server_data "launchedInstance") as [[ |b|z|s|l|li]|] eqn:Hli;
    intros Hneed;
    try (apply (later_stages_are_running server_data PNone PNone) in Hneed;
         destruct Hneed as (_ & Hid & _); discriminate).
  apply (later_stages_are_running server_data (get li "ec2InstanceID")
           (get li "state")) in Hneed.
  exists li. split; [reflexivity|exact Hneed].
Qed.

Lemma lookup_only_for_launched_instance_witness :
  exists launched_instance,
    dict_get launched_record "launchedInstance" = Some (PDict launched_instance)
    /\ find_test_instance launched_record
       = (get launched_instance "ec2InstanceID", get launched_instance "state")
    /\ truthy (get launched_instance "ec2InstanceID") = true
    /\ truthy (get launched_instance "state") = false.
Proof.
  apply (lookup_only_for_launched_instance launched_record). reflexivity.
Defined.

(** A [lastLaunchTime] that is present but is no string is not
    tolerated like an unparsable one: parsing the record raises, and the
    listing drops the record. *)
Lemma non_string_launch_time_fails (client : MGNClient) (rt : Runtime)
    (server_data last_launch_result : list (string * pyval)) :
  dict_get server_data "lastLaunchResult" = Some (PDict last_launch_result) ->
  truthy (get last_launch_result "lastLaunchTime") = true ->
  (forall s, get last_launch_result "lastLaunchTime" <> PStr s) ->
  (exists e, _parse_source_server client rt server_data = Raise e)
  /\ parsed client rt (PDict server_data) = None.
Proof.
  intros Hllr Htruthy Hnostr.
  assert (Hraise : exists e, _parse_source_server client rt server_data = Raise e).
  { unfold _parse_source_server.
    destruct (negb (truthy (get_or server_data "sourceServerID" (PStr ""))));
      [eauto|].
    destruct (_extract_server_name rt server_data) as [n|e]; cbn [Py.bind];
      [|eauto].
    destruct (match get_or server_data "lifeCycle" (PDict []) with
              | PDict life_cycle =>
                  _parse_server_status (get_or life_cycle "state" (PStr ""))
              | _ => Ok SS_UNKNOWN
              end) as [st|e]; cbn [Py.bind]; [|eauto].
    assert (Hget : get_or server_data "lastLaunchResult" (PDict [])
                   = PDict last_launch_result).
    { unfold get_or. now rewrite Hllr. }
    rewrite Hget, Htruthy.
    unfold parse_timestamp.
    destruct (get last_launch_result "lastLaunchTime") as [ |b|z|s|l|d];
      cbn [Py.bind]; eauto.
    exfalso. now apply (Hnostr s). }
  split; [exact Hraise|].
  destruct Hraise as [e He]. cbn [parsed]. now rewrite He.
Qed.

Lemma non_string_launch_time_fails_witness :
  (exists e,
      _parse_source_server (ec2_says "running") plain_runtime
        [("sourceServerID", PStr "s-1234567890abcdef");
         ("lastLaunchResult", PDict [("lastLaunchTime", PInt 1700000000)])]
      = Raise e)
  /\ parsed (ec2_says "running") plain_runtime
       (PDict [("sourceServerID", PStr "s-1234567890abcdef");
               ("lastLaunchResult", PDict [("lastLaunchTime", PInt 1700000000)])])
     = None.
Proof.
  apply (non_string_launch_time_fails (ec2_says "running") plain_runtime
           [("sourceServerID", PStr "s-1234567890abcdef");
            ("lastLaunchResult", PDict [("lastLaunchTime", PInt 1700000000)])]
           [("lastLaunchTime", PInt 1700000000)]).
  - reflexivity.
  - reflexivity.
  - intros s. discriminate.
Defined.

(** A failure of the listing call is fatal to the batch: the listing
    raises and returns no list.  A [ClientError] is turned into a plain
    [Exception]; any other exception is passed on as it is.  A response
    that is neither a map nor a list gives the empty list. *)
Lemma listing_failure_is_fatal (client : MGNClient) (rt : Runtime) (e : exn) :
  (exists e', get_source_servers client rt (Raise e) = Raise e'
              /\ (forall code message text,
                     e = ClientError code message text -> exists msg, e' = Exception msg)
              /\ ((forall code message text, e <> ClientError code message text) ->
                  e' = e))
  /\ (forall response,
        (forall d, response <> PDict d) -> (forall l, response <> PList l) ->
        get_source_servers client rt (Ok response) = Ok []).
Proof.
  split.
  - destruct e as [msg| | | | | |code message text|msg];
      try (eexists; split; [reflexivity|];
           split; [intros; discriminate|reflexivity]).
    cbn [get_source_servers].
    destruct (String.eqb code "UnauthorizedOperation");
      [|destruct (String.eqb code "InvalidParameterValue")];
      (eexists; split; [reflexivity|];
       split; [intros; eauto|intros H; exfalso; eapply H; reflexivity]).
  - intros response Hd Hl.
    destruct response as [ |b|z|s|l|d]; try reflexivity.
    + exfalso. now apply (Hl l).
    + exfalso. now apply (Hd d).
Qed.

Lemma listing_failure_is_fatal_witness :
  exists msg,
    Exception ("AWS MGN error: " ++ "throttled") = Exception msg.
Proof.
  destruct (proj1 (listing_failure_is_fatal (ec2_says "running") plain_runtime
                     (ClientError "ThrottlingException" "throttled" "throttled")))
    as (e' & Hrun & Hclient & _).
  injection Hrun as <-.
  exact (Hclient "ThrottlingException" "throttled" "throttled" eq_refl).
Defined.

(** The listing keeps the order of the batch and invents no server:
    the ids of the returned records are, in order, ids of records of the
    batch, and there are no more records than items. *)
Lemma listing_ids_from_batch (client : MGNClient) (rt : Runtime)
    (items : list pyval) :
  exists source_servers,
    get_source_servers client rt (Ok (PList items)) = Ok source_servers
    /\ map source_server_id source_servers `sublist_of` omap record_id items
    /\ (length source_servers <= length items)%nat.
Proof.
  exists (omap (parsed client rt) items).
  split.
  { cbn [get_source_servers response_items Py.bind]. now rewrite parse_batch_acc. }
  induction items as [|item items [IHs IHl]]; [split; [constructor|reflexivity]|].
  cbn [omap list_omap length].
  destruct item as [ |b|z|s|l|d]; cbn [parsed record_id];
    try (split; [exact IHs|lia]).
  destruct (_parse_source_server client rt d) as [srv|e] eqn:Hp.
  - apply parse_ok_id in Hp. destruct Hp as [Hid _].
    cbn [map length]. rewrite Hid. split; [now apply sublist_skip|lia].
  - split; [now apply sublist_cons|lia].
Qed.

(* ===================================================================== *)
(** * Names of servers in the coordinator *)
(* ===================================================================== *)

(** The coordinator names a server as the listing named it: when the
    ids of the known servers are distinct, the name found for the id of
    a known server is the name of that server. *)
Lemma name_by_id_of_known_server (known : list SourceServer) (s : SourceServer)
    (id : string) :
  NoDup (map source_server_id known) ->
  s ∈ known ->
  source_server_id s = PStr id ->
  _get_server_name_by_id known id = name s.
Proof.
  intros Hnodup Hin Hid.
  induction known as [|x known IH]; [now apply elem_of_nil in Hin|].
  cbn [map] in Hnodup. apply NoDup_cons in Hnodup. destruct Hnodup as [Hx Hnodup].
  cbn [_get_server_name_by_id].
  apply elem_of_cons in Hin. destruct Hin as [->|Hin].
  - rewrite Hid. cbn [eq_str]. now rewrite String.eqb_refl.
  - destruct (eq_str (source_server_id x) id) eqn:Hmatch; [|now apply IH].
    exfalso. apply Hx.
    assert (Hsame : source_server_id x = source_server_id s).
    { rewrite Hid. destruct (source_server_id x); try discriminate.
      cbn [eq_str] in Hmatch. apply String.eqb_eq in Hmatch. now subst. }
    rewrite Hsame. apply list_elem_of_fmap. eauto.
Qed.

(** The name that the coordinator gives to a server it does not know
    is the name that parsing gives to a record without any name hint:
    ["Server-"] and the first 8 characters of the id. *)
Lemma unknown_server_named_like_unhinted_record (rt : Runtime)
    (known : list SourceServer) (server_data : list (string * pyval))
    (id : string) :
  Forall (fun x => eq_str (source_server_id x) id = false) known ->
  dict_get server_data "sourceServerID" = Some (PStr id) ->
  tags_string_keyed server_data = true ->
  name_tag server_data = None ->
  description_hint server_data = None ->
  hostname_hint server_data = None ->
  _get_server_name_by_id known id = PStr ("Server-" ++ prefix 8 id)
  /\ _extract_server_name rt server_data = Ok (_get_server_name_by_id known id).
Proof.
  intros Hunknown Hid Hkeys Htag Hdesc Hhost.
  assert (Hfallback : _get_server_name_by_id known id
                      = PStr ("Server-" ++ prefix 8 id)).
  { induction Hunknown as [|x known Hx _ IH]; [reflexivity|].
    cbn [_get_server_name_by_id]. now rewrite Hx. }
  split; [exact Hfallback|]. rewrite Hfallback.
  unfold _extract_server_name, name_tag, tags_string_keyed in *.
  assert (Hfrom :
    match get_or server_data "tags" (PDict []) with
    | PDict t => Ok (dict_get t "Name")
    | PList ts => find_name_tag ts
    | _ => Ok None
    end = Ok None).
  { destruct (get_or server_data "tags" (PDict [])) as [ |b|z|s|ts|t];
      try reflexivity.
    - rewrite find_name_tag_spec by exact Hkeys. now rewrite Htag.
    - now rewrite Htag. }
  rewrite Hfrom. cbn [Py.bind].
  rewrite hostname_rule_spec, Hhost.
  unfold description_hint in Hdesc. unfold get, get_or. rewrite Hid.
  destruct (dict_get server_data "description") as [v|].
  - destruct (truthy v); [discriminate|]. now rewrite guarded_prefix.
  - cbn [truthy]. now rewrite guarded_prefix.
Qed.

Lemma name_by_id_of_known_server_witness :
  _get_server_name_by_id
    (omap (parsed (ec2_says "running") plain_runtime)
          [PDict db01_record])
    "s-1234567890abcdef"
  = PStr "db01".
Proof.
  apply (name_by_id_of_known_server
           (omap (parsed (ec2_says "running") plain_runtime) [PDict db01_record])
           {| source_server_id := PStr "s-1234567890abcdef";
              name := PStr "db01";
              status := SS_UNKNOWN;
              replication_status := UNKNOWN;
              region := "us-east-1";
              last_seen_date_time := None;
              target_instance_id := PNone;
              target_instance_type := PNone;
              test_instance_id := PNone;
              test_instance_state := PNone;
              tags := [(PStr "Name", PStr "db01")];
              description := PStr "" |} "s-1234567890abcdef").
  - apply NoDup_cons. split; [apply not_elem_of_nil|apply NoDup_nil_2].
  - apply elem_of_cons. left. reflexivity.
  - reflexivity.
Defined.

Lemma unknown_server_named_like_unhinted_record_witness :
  _get_server_name_by_id [] "s-1234567890abcdef"
  = PStr ("Server-" ++ prefix 8 "s-1234567890abcdef")
  /\ _extract_server_name plain_runtime launched_record
     = Ok (_get_server_name_by_id [] "s-1234567890abcdef").
Proof.
  apply (unknown_server_named_like_unhinted_record plain_runtime []
           launched_record "s-1234567890abcdef");
    try reflexivity.
  apply Forall_nil_2.
Defined.

(* ===================================================================== *)
(** * Properties of the server list filter *)
(* ===================================================================== *)

(** Choosing in the status filter the name under which the filter
    offers a server's own status shows that server, except for four
    statuses: the names ["Test Complete"], ["Cutover Complete"],
    ["Stopped"] and ["Unknown"] are offered but are unknown to
    [_matches_filter], which then hides every server. *)
Lemma own_status_filter (server : SourceServer) :
  _matches_filter (status_display_map (status server)) "" server
  = Ok match status server with
       | SS_TEST_COMPLETE | SS_CUTOVER_COMPLETE | SS_STOPPED | SS_UNKNOWN => false
       | _ => true
       end
  /\ (forall other search,
        In (status_display_map (status server))
           ["Test Complete"; "Cutover Complete"; "Stopped"; "Unknown"] ->
        _matches_filter (status_display_map (status server)) search other = Ok false).
Proof.
  split.
  - unfold _matches_filter, status_matches.
    destruct (status server); reflexivity.
  - intros other search Hin. unfold _matches_filter, status_matches.
    cbn [In] in Hin.
    destruct Hin as [<-|[<-|[<-|[<-|[]]]]]; reflexivity.
Qed.

Lemma own_status_filter_witness :
  _matches_filter (status_display_map (status (example_server (PStr "db01") SS_STOPPED)))
                  "db" (example_server (PStr "db01") SS_STOPPED)
  = Ok false.
Proof.
  apply (proj2 (own_status_filter (example_server (PStr "db01") SS_STOPPED))).
  cbn. auto.
Defined.

Lemma apply_filters_acc (status_var search_var : string)
    (servers : list SourceServer) :
  forall acc out,
    _apply_filters status_var search_var servers acc = Ok out ->
    exists kept,
      out = acc ++ kept
      /\ kept `sublist_of` servers
      /\ Forall (fun s => _matches_filter status_var search_var s = Ok true) kept.
Proof.
  induction servers as [|s servers IH]; intros acc out Hrun;
    cbn [_apply_filters] in Hrun.
  - injection Hrun as <-. exists []. rewrite app_nil_r.
    repeat split; constructor.
  - destruct (_matches_filter status_var search_var s) as [[|]|e] eqn:Hm;
      cbn [Py.bind] in Hrun; [| |discriminate].
    + apply IH in Hrun. destruct Hrun as (kept & -> & Hsub & Hall).
      exists (s :: kept). rewrite <- app_assoc. cbn [app].
      repeat split; [now apply sublist_skip|now constructor].
    + apply IH in Hrun. destruct Hrun as (kept & -> & Hsub & Hall).
      exists kept. repeat split; [now apply sublist_cons|exact Hall].
Qed.

(** The filter only hides: what it shows is a selection of the servers
    in their order, each of which matches; and with the status ["All"]
    and an empty search it shows every server. *)
Lemma apply_filters_selects (status_var search_var : string)
    (servers : list SourceServer) :
  (forall shown,
      _apply_filters status_var search_var servers [] = Ok shown ->
      shown `sublist_of` servers
      /\ Forall (fun s => _matches_filter status_var search_var s = Ok true) shown)
  /\ _apply_filters "All" "" servers [] = Ok servers.
Proof.
  split.
  - intros shown Hrun. apply apply_filters_acc in Hrun.
    destruct Hrun as (kept & -> & Hsub & Hall). auto.
  - assert (H : forall acc, _apply_filters "All" "" servers acc = Ok (acc ++ servers)).
    { induction servers as [|s servers IH]; intros acc; cbn [_apply_filters].
      - now rewrite app_nil_r.
      - cbn. rewrite IH, <- app_assoc. reflexivity. }
    apply (H []).
Qed.

Lemma apply_filters_selects_witness :
  [example_server (PStr "db01") SS_STALLED]
    `sublist_of` [example_server (PStr "web01") SS_STALLED;
                  example_server (PStr "db01") SS_STALLED]
  /\ Forall (fun s => _matches_filter "Stalled" "DB" s = Ok true)
            [example_server (PStr "db01") SS_STALLED].
Proof.
  apply (proj1 (apply_filters_selects "Stalled" "DB"
                  [example_server (PStr "web01") SS_STALLED;
                   example_server (PStr "db01") SS_STALLED])).
  reflexivity.
Defined.

(** A search breaks on a server whose name is no string: with a search
    term, a server that passes the status filter and whose name is not
    a [str] makes the whole filter raise [AttributeError], whatever the
    servers after it are, once the servers before it have been
    filtered. *)
Lemma search_breaks_on_unnamed_server (status_var search_var : string)
    (pre post : list SourceServer) (s : SourceServer)
    (acc kept : list SourceServer) :
  _apply_filters status_var search_var pre acc = Ok kept ->
  status_matches status_var s = true ->
  lower search_var <> "" ->
  (forall n, name s <> PStr n) ->
  _apply_filters status_var search_var (pre ++ s :: post) acc
  = Raise AttributeError.
Proof.
  intros Hpre Hstatus Hterm Hname.
  revert acc Hpre. induction pre as [|x pre IH]; intros acc Hpre;
    cbn [app _apply_filters] in *.
  - unfold _matches_filter. rewrite Hstatus. cbn [negb].
    rewrite (proj2 (String.eqb_neq _ _) Hterm). cbn [negb].
    destruct (name s) as [ |b|z|n|l|d]; try reflexivity.
    exfalso. now apply (Hname n).
  - destruct (_matches_filter status_var search_var x) as [keep|e];
      cbn [Py.bind] in *; [|discriminate].
    now apply IH.
Qed.

Lemma search_breaks_on_unnamed_server_witness :
  _apply_filters "All" "db"
    ([example_server (PStr "db01") SS_STALLED]
     ++ example_server (PInt 7) SS_STALLED
     :: [example_server (PStr "db02") SS_STALLED]) []
  = Raise AttributeError.
Proof.
  apply (search_breaks_on_unnamed_server "All" "db"
           [example_server (PStr "db01") SS_STALLED]
           [example_server (PStr "db02") SS_STALLED]
           (example_server (PInt 7) SS_STALLED) []
           [example_server (PStr "db01") SS_STALLED]).
  - reflexivity.
  - reflexivity.
  - discriminate.
  - intros n. discriminate.
Defined.
